(** * v8eval: the engine wrapper [_V8] and the debugger bridge [DbgSrv]

    A shallow embedding of [src/v8eval.h] and [src/v8eval.cxx].

    The embedded engine (V8) and the event-loop library (libuv) are not
    part of the repository.  They appear here at their interface only:
    - the engine as the class [Engine], whose operations have the shape of
      the API calls the wrapper makes ([Script::Compile], [Script::Run],
      [Object::Get], [Function::Call], [String::Utf8Value]); [JSON.parse],
      [JSON.stringify] and [apply] are whatever the wrapper finds under
      these names when it looks them up;
    - libuv as the life cycle of its handles and threads, and a log of the
      calls made to it.

    Reading an object that was never initialised has no defined result in
    C++, nor has a call through an empty handle, and the engine ends the
    process on [ToLocalChecked] of an empty result; such a step ends in
    [Undefined]. *)

From stdpp Require Import gmap strings list pretty.
From Equations Require Import Equations.
From Stdlib Require Import ZArith Lia.

Open Scope string_scope.
Open Scope list_scope.
Set Warnings "-register-all".

(** ** Strings *)

(** [std::string::c_str] handed to an API that takes a [const char *]: the
    text stops at the first NUL character. *)
Fixpoint c_str (s : string) : string :=
  match s with
  | EmptyString => EmptyString
  | String a s' => if Ascii.eqb a Ascii.zero then EmptyString else String a (c_str s')
  end.

Fixpoint has_NUL (s : string) : bool :=
  match s with
  | EmptyString => false
  | String a s' => Ascii.eqb a Ascii.zero || has_NUL s'
  end.

(** ** Values seen through the engine API *)

Inductive Value :=
| VUndefined
| VNull
| VBool (b : bool)
| VNumber (n : Z)
| VString (s : string)
| VArray (elems : list Value)
| VObject (props : list (string * Value))
| VFunction (code : nat)
| VGlobal.                     (* the global object of the current context *)

Definition IsFunction (v : Value) : bool :=
  match v with VFunction _ => true | _ => false end.

Definition IsArray (v : Value) : bool :=
  match v with VArray _ => true | _ => false end.

(** A [v8::Local<T>] handle: empty, or referring to a value. *)
Definition Local := option Value.

(** A [v8::Maybe]/[v8::MaybeLocal] result: a value, or nothing with the
    exception left pending for the enclosing [v8::TryCatch]. *)
Inductive Maybe (A : Type) :=
| Just (a : A)
| Threw (exception : Value).
Arguments Just {A} a.
Arguments Threw {A} exception.

(** A property of the global object: plain data, or an accessor whose
    getter runs on every read. *)
Inductive Property :=
| DataProperty (v : Value)
| AccessorProperty (getter : Value).

(** The global object of a context, by property name. *)
Abbreviation Globals := (gmap string Property).

(** ** The engine interface *)

Class Engine := {
  Script : Type;
  (** the global object of a context made by [v8::Context::New] *)
  builtins : Globals;
  (** [v8::Script::Compile] *)
  Compile : Value -> Maybe Script;
  (** [v8::Script::Run] *)
  Run : Script -> Globals -> Maybe Value * Globals;
  (** [v8::Object::Get] on a value other than the global object: the
      property [key] of [object], with whatever getter the read runs *)
  Object_Get : Value -> Value -> Globals -> Maybe Value * Globals;
  (** [v8::Function::Call] of a value on a receiver and positional
      arguments *)
  Call : Value -> Value -> list Value -> Globals -> Maybe Value * Globals;
  (** the string conversion behind [v8::String::Utf8Value]; [None] when the
      conversion fails *)
  ToUtf8 : Value -> option string;
  (** the outbound messages the engine's debug agent produces when
      [v8::Debug::ProcessDebugMessages] handles one queued command *)
  Debug_replies : string -> list string;
}.

(** ** Outcomes of steps that may read uninitialised objects or block *)

Inductive uv_async_name :=
| a_dbgsrv_send_ | a_dbgsrv_stop_ | a_dbgproc_proc_ | a_dbgproc_stop_.

Inductive uv_thread_name := t_dbgsrv_thread_ | t_dbgproc_thread_.

Inductive Fault :=
| empty_MaybeLocal                     (* [ToLocalChecked] on an empty result *)
| empty_Local                          (* a member called through an empty handle *)
| uninit_isolate                       (* [dbg_isolate_] read before any assignment *)
| uninit_async (h : uv_async_name)     (* an async handle used before [uv_async_init] *)
| uninit_thread (t : uv_thread_name)   (* a thread joined before [uv_thread_create] *)
| joined_thread (t : uv_thread_name).  (* a thread joined a second time *)

Inductive Outcome (A : Type) :=
| Returns (a : A)
| Undefined (f : Fault)
| Blocks (t : uv_thread_name).         (* a join on a thread whose loop never ends *)
Arguments Returns {A} a.
Arguments Undefined {A} f.
Arguments Blocks {A} t.

#[global] Instance Outcome_ret : MRet Outcome := fun A a => Returns a.

#[global] Instance Outcome_bind : MBind Outcome := fun A B k m =>
  match m with
  | Returns a => k a
  | Undefined f => Undefined f
  | Blocks t => Blocks t
  end.

(** ** _V8 *)

(** The functions a [debugger_cb] pointer may hold: the bridge's own
    [DbgSrv::recv_from_debugger_], or a function of the host program. *)
Inductive debugger_cb :=
| cb_recv_from_debugger_
| cb_host (fn : nat).

(** What a [void *opq] may point to: the bridge, or an object of the host. *)
Inductive opaque :=
| opq_DbgSrv
| opq_host (obj : nat).

Record _V8 := mk_V8 {
  (** the contexts living in [isolate_], by handle *)
  isolate_ : list Globals;
  (** [None] while the member has never been assigned *)
  dbg_isolate_ : option nat;
  (** the persistent handle: empty, or a context of [isolate_] *)
  context_ : option nat;
  callback_ : option debugger_cb;
  callbackopq_ : option opaque;
  (** the debug channel of [isolate_]: is [debugger_message_handler]
      installed, and the commands sent and not yet processed *)
  message_handler : bool;
  commands : list string;
}.

Definition set_isolate_ (x : list Globals) (v : _V8) : _V8 :=
  mk_V8 x (dbg_isolate_ v) (context_ v) (callback_ v) (callbackopq_ v)
        (message_handler v) (commands v).
Definition set_dbg_isolate_ (x : option nat) (v : _V8) : _V8 :=
  mk_V8 (isolate_ v) x (context_ v) (callback_ v) (callbackopq_ v)
        (message_handler v) (commands v).
Definition set_context_ (x : option nat) (v : _V8) : _V8 :=
  mk_V8 (isolate_ v) (dbg_isolate_ v) x (callback_ v) (callbackopq_ v)
        (message_handler v) (commands v).
Definition set_callback_ (x : option debugger_cb) (v : _V8) : _V8 :=
  mk_V8 (isolate_ v) (dbg_isolate_ v) (context_ v) x (callbackopq_ v)
        (message_handler v) (commands v).
Definition set_callbackopq_ (x : option opaque) (v : _V8) : _V8 :=
  mk_V8 (isolate_ v) (dbg_isolate_ v) (context_ v) (callback_ v) x
        (message_handler v) (commands v).
Definition set_message_handler (x : bool) (v : _V8) : _V8 :=
  mk_V8 (isolate_ v) (dbg_isolate_ v) (context_ v) (callback_ v) (callbackopq_ v)
        x (commands v).
Definition set_commands (x : list string) (v : _V8) : _V8 :=
  mk_V8 (isolate_ v) (dbg_isolate_ v) (context_ v) (callback_ v) (callbackopq_ v)
        (message_handler v) x.

Section V8.
Context `{E : Engine}.

(** [context->Global()] and its write-back after the engine ran in it. *)
Definition Global (context : nat) (v : _V8) : Globals :=
  default ∅ (isolate_ v !! context).

Definition set_Global (context : nat) (g : Globals) (v : _V8) : _V8 :=
  set_isolate_ (<[context := g]> (isolate_ v)) v.

(** [v8::Context::New]: a new context in the isolate. *)
Definition Context_New (v : _V8) : nat * _V8 :=
  (length (isolate_ v), set_isolate_ (isolate_ v ++ [builtins]) v).

Definition new_context (v : _V8) : nat * _V8 :=
  match context_ v with
  | None => Context_New v
  | Some c => (c, v)
  end.

(** [_V8::_V8]: a new isolate, no callback, and the persistent handle
    reset to the context [new_context] makes.  [dbg_isolate_] and
    [callbackopq_] are not assigned. *)
Definition V8_ctor : _V8 :=
  let v := mk_V8 [] None None None None false [] in
  let v := set_callback_ None v in
  let '(c, v) := new_context v in
  set_context_ (Some c) v.

(** [new_string]: a string value from a C string. *)
Definition new_string (str : string) : Value := VString (c_str str).

Definition Utf8Value (value : Local) : option string :=
  match value with
  | None => None
  | Some (VString s) => Some s
  | Some v => ToUtf8 v
  end.

(** [to_std_string]: the conversion result, read as a C string, or the
    fixed text when the conversion yields nothing. *)
Definition to_std_string (value : Local) : string :=
  match Utf8Value value with
  | Some str => c_str str
  | None => "Error: Cannot convert to string"
  end.

(** [Value::ToString()], the form without a context: an empty handle when
    the conversion fails. *)
Definition ToString (v : Value) : Local :=
  match Utf8Value (Some v) with
  | Some s => Some (VString s)
  | None => None
  end.

(** [global->Get(context, key)]: the property named [key], [undefined]
    when there is none; an accessor runs its getter on the global object. *)
Definition Get (key : Value) (global : Globals) : Maybe Value * Globals :=
  match key with
  | VString name =>
      match global !! name with
      | None => (Just VUndefined, global)
      | Some (DataProperty v) => (Just v, global)
      | Some (AccessorProperty getter) => Call getter VGlobal [] global
      end
  | _ => (Just VUndefined, global)
  end.

(** [MaybeLocal::ToLocalChecked]: the value, or no defined result when
    there is none. *)
Definition ToLocalChecked {A} (m : Maybe A) : Outcome A :=
  match m with
  | Just a => Returns a
  | Threw _ => Undefined empty_MaybeLocal
  end.

(** [Value::ToObject()], the form without a context: an empty handle for
    [undefined] and [null], which have no object form. *)
Definition ToObject (v : Value) : Local :=
  match v with
  | VUndefined | VNull => None
  | _ => Some v
  end.

(** [handle->member (...)]: the value the handle refers to. *)
Definition deref (handle : Local) : Outcome Value :=
  match handle with
  | Some v => Returns v
  | None => Undefined empty_Local
  end.

(** [json_parse] and [json_stringify] read [JSON] from the global object
    and the function from it on every call.  The casts to [Object] and
    [Function] are unchecked: what reading a property of, or calling, a
    value of another kind does is the engine's [Object_Get] and [Call]. *)
Definition json_parse (str : Value) (global : Globals) : Outcome (Local * Globals) :=
  let '(r, global) := Get (new_string "JSON") global in
  j ← ToLocalChecked r;
  json ← deref (ToObject j);
  let '(r, global) := Object_Get json (new_string "parse") global in
  parse ← ToLocalChecked r;
  let '(r, global) := Call parse json [str] global in
  match r with
  | Threw _ => Returns (None, global)
  | Just result => Returns (Some result, global)
  end.

Definition json_stringify (value : Value) (global : Globals)
  : Outcome (Local * Globals) :=
  let '(r, global) := Get (new_string "JSON") global in
  j ← ToLocalChecked r;
  json ← deref (ToObject j);
  let '(r, global) := Object_Get json (new_string "stringify") global in
  stringify ← ToLocalChecked r;
  let '(r, global) := Call stringify json [value] global in
  match r with
  | Threw _ => Returns (Some (new_string ""), global)
  | Just result => Returns (ToString result, global)
  end.

Definition eval (src : string) (v : _V8) : Outcome (string * _V8) :=
  let '(context, v) := new_context v in
  let source := new_string src in
  match Compile source with
  | Threw exception => Returns (to_std_string (Some exception), v)
  | Just script =>
      let '(r, global) := Run script (Global context v) in
      let v := set_Global context global v in
      match r with
      | Threw exception => Returns (to_std_string (Some exception), v)
      | Just result =>
          r ← json_stringify result global;
          Returns (to_std_string r.1, set_Global context r.2 v)
      end
  end.

Definition call (func args : string) (v : _V8) : Outcome (string * _V8) :=
  let '(context, v) := new_context v in
  let '(r, global) := Get (new_string func) (Global context v) in
  let v := set_Global context global v in
  match r with
  | Threw exception => Returns (to_std_string (Some exception), v)
  | Just result =>
      if negb (IsFunction result) then
        Returns ("TypeError: '" +:+ func +:+ "' is not a function", v)
      else
        let function := result in
        let '(r, global) := Object_Get function (new_string "apply") global in
        apply ← ToLocalChecked r;
        p ← json_parse (new_string args) global;
        let arguments := p.1 in
        let global := p.2 in
        let v := set_Global context global v in
        match arguments with
        | Some arr =>
            if negb (IsArray arr) then
              Returns ("TypeError: '" +:+ args +:+ "' is not an array", v)
            else
              let '(r, global) := Call apply function [function; arr] global in
              let v := set_Global context global v in
              match r with
              | Threw exception => Returns (to_std_string (Some exception), v)
              | Just result =>
                  r ← json_stringify result global;
                  Returns (to_std_string r.1, set_Global context r.2 v)
              end
        | None => Returns ("TypeError: '" +:+ args +:+ "' is not an array", v)
        end
  end.

(** [debugger_message_handler]: the callback to run for an outbound
    message, if one is registered. *)
Definition debugger_message_handler (message : string) (v : _V8)
  : option (debugger_cb * string * option opaque) :=
  match callback_ v with
  | Some cb => Some (cb, message, callbackopq_ v)
  | None => None
  end.

(** [debugger_process]: the engine handles the queued commands and hands
    every outbound message to the installed message handler; the result
    lists the callback invocations, in order. *)
Definition debugger_process (v : _V8)
  : list (debugger_cb * string * option opaque) * _V8 :=
  if message_handler v then
    (omap (fun message => debugger_message_handler message v)
          (concat (map Debug_replies (commands v))),
     set_commands [] v)
  else ([], v).

(** [debugger_init]: [cb] is a function pointer, [None] when the caller
    passes a null one. *)
Definition debugger_init (cb : option debugger_cb) (cbopq : opaque) (v : _V8)
  : bool * _V8 :=
  let v := set_dbg_isolate_ (Some (from_option S 0%nat (dbg_isolate_ v))) v in
  match callback_ v with
  | Some _ => (false, v)
  | None =>
      let v := set_callback_ cb v in
      let v := set_callbackopq_ (Some cbopq) v in
      (true, set_message_handler true v)
  end.

(** [debugger_send] enters [dbg_isolate_] before it looks at [callback_]. *)
Definition debugger_send (cmd : string) (v : _V8) : Outcome (bool * _V8) :=
  match dbg_isolate_ v with
  | None => Undefined uninit_isolate
  | Some _ =>
      match callback_ v with
      | None => Returns (false, v)
      | Some _ => Returns (true, set_commands (commands v ++ [c_str cmd]) v)
      end
  end.

Definition debugger_stop (v : _V8) : _V8 :=
  let v := set_message_handler false v in
  set_callback_ None v.

End V8.

(** ** libuv objects *)

Inductive uv_tcp_name := s_dbgsrv_serv_ | s_dbgsrv_clnt_.
Inductive uv_loop_name := l_dbgsrv_loop_ | l_dbgproc_loop_.

(** An async handle: never initialised, initialised and idle, signalled by
    [uv_async_send] and waiting for its loop, or closed. *)
Inductive uv_async_t := async_uninit | async_idle | async_pending | async_closed.

(** A TCP handle.  [peer] names the remote end of an accepted connection. *)
Inductive uv_tcp_t :=
| tcp_uninit
| tcp_init
| tcp_bound
| tcp_listening
| tcp_accepted (peer : nat)
| tcp_reading (peer : nat)
| tcp_closed.

Inductive uv_thread_t := thread_uninit | thread_running | thread_joined.

(** An event loop, as far as the bridge can tell it from outside: the
    registrations it still counts for handles that were initialised again
    while they were active.  Initialising a handle does not undo what was
    registered through it before, and no later call can close it. *)
Definition uv_loop_t := nat.

(** The calls made, in program order: those of the bridge to libuv and to
    the engine, and those of the message handler to a registered callback. *)
Inductive Effect :=
| fx_debugger_stop
| fx_uv_loop_init (l : uv_loop_name)
| fx_uv_loop_close (l : uv_loop_name)
| fx_uv_async_init (h : uv_async_name)
| fx_uv_async_send (h : uv_async_name)
| fx_uv_close_async (h : uv_async_name)
| fx_uv_close_tcp (s : uv_tcp_name)
| fx_uv_thread_create (t : uv_thread_name)
| fx_uv_thread_join (t : uv_thread_name)
| fx_uv_write (stream : uv_tcp_t) (buf : string)
| fx_callback (cb : debugger_cb) (message : string).

Inductive Status := dbgsrv_offline | dbgsrv_started | dbgsrv_connected.

#[global] Instance Status_eq_dec : EqDecision Status.
Proof. solve_decision. Defined.
#[global] Instance uv_async_t_eq_dec : EqDecision uv_async_t.
Proof. solve_decision. Defined.
#[global] Instance uv_tcp_t_eq_dec : EqDecision uv_tcp_t.
Proof. solve_decision. Defined.

(** ** DbgSrv *)

Record DbgSrv := mkDbgSrv {
  v8_ : _V8;
  status_ : Status;
  (** [std::list]: the front is the head of the list *)
  msg_queue_ : list string;
  dbgsrv_port_ : Z;
  dbgsrv_serv_ : uv_tcp_t;
  dbgsrv_clnt_ : uv_tcp_t;
  dbgsrv_send_ : uv_async_t;
  dbgsrv_stop_ : uv_async_t;
  dbgsrv_thread_ : uv_thread_t;
  dbgsrv_loop_ : uv_loop_t;
  dbgproc_proc_ : uv_async_t;
  dbgproc_stop_ : uv_async_t;
  dbgproc_thread_ : uv_thread_t;
  dbgproc_loop_ : uv_loop_t;
  (** the calls made so far *)
  effects : list Effect;
}.

Definition set_v8_ (x : _V8) (db : DbgSrv) : DbgSrv :=
  mkDbgSrv x (status_ db) (msg_queue_ db) (dbgsrv_port_ db) (dbgsrv_serv_ db)
    (dbgsrv_clnt_ db) (dbgsrv_send_ db) (dbgsrv_stop_ db) (dbgsrv_thread_ db)
    (dbgsrv_loop_ db) (dbgproc_proc_ db) (dbgproc_stop_ db) (dbgproc_thread_ db)
    (dbgproc_loop_ db) (effects db).
Definition set_status_ (x : Status) (db : DbgSrv) : DbgSrv :=
  mkDbgSrv (v8_ db) x (msg_queue_ db) (dbgsrv_port_ db) (dbgsrv_serv_ db)
    (dbgsrv_clnt_ db) (dbgsrv_send_ db) (dbgsrv_stop_ db) (dbgsrv_thread_ db)
    (dbgsrv_loop_ db) (dbgproc_proc_ db) (dbgproc_stop_ db) (dbgproc_thread_ db)
    (dbgproc_loop_ db) (effects db).
Definition set_msg_queue_ (x : list string) (db : DbgSrv) : DbgSrv :=
  mkDbgSrv (v8_ db) (status_ db) x (dbgsrv_port_ db) (dbgsrv_serv_ db) (dbgsrv_clnt_ db)
    (dbgsrv_send_ db) (dbgsrv_stop_ db) (dbgsrv_thread_ db) (dbgsrv_loop_ db)
    (dbgproc_proc_ db) (dbgproc_stop_ db) (dbgproc_thread_ db) (dbgproc_loop_ db)
    (effects db).
Definition set_dbgsrv_port_ (x : Z) (db : DbgSrv) : DbgSrv :=
  mkDbgSrv (v8_ db) (status_ db) (msg_queue_ db) x (dbgsrv_serv_ db) (dbgsrv_clnt_ db)
    (dbgsrv_send_ db) (dbgsrv_stop_ db) (dbgsrv_thread_ db) (dbgsrv_loop_ db)
    (dbgproc_proc_ db) (dbgproc_stop_ db) (dbgproc_thread_ db) (dbgproc_loop_ db)
    (effects db).
Definition set_effects (x : list Effect) (db : DbgSrv) : DbgSrv :=
  mkDbgSrv (v8_ db) (status_ db) (msg_queue_ db) (dbgsrv_port_ db) (dbgsrv_serv_ db)
    (dbgsrv_clnt_ db) (dbgsrv_send_ db) (dbgsrv_stop_ db) (dbgsrv_thread_ db)
    (dbgsrv_loop_ db) (dbgproc_proc_ db) (dbgproc_stop_ db) (dbgproc_thread_ db)
    (dbgproc_loop_ db) x.

Definition async_of (h : uv_async_name) (db : DbgSrv) : uv_async_t :=
  match h with
  | a_dbgsrv_send_ => dbgsrv_send_ db
  | a_dbgsrv_stop_ => dbgsrv_stop_ db
  | a_dbgproc_proc_ => dbgproc_proc_ db
  | a_dbgproc_stop_ => dbgproc_stop_ db
  end.

Definition set_async (h : uv_async_name) (x : uv_async_t) (db : DbgSrv) : DbgSrv :=
  mkDbgSrv (v8_ db) (status_ db) (msg_queue_ db) (dbgsrv_port_ db) (dbgsrv_serv_ db)
    (dbgsrv_clnt_ db) (match h with a_dbgsrv_send_ => x | _ => dbgsrv_send_ db end)
    (match h with a_dbgsrv_stop_ => x | _ => dbgsrv_stop_ db end) (dbgsrv_thread_ db)
    (dbgsrv_loop_ db) (match h with a_dbgproc_proc_ => x | _ => dbgproc_proc_ db end)
    (match h with a_dbgproc_stop_ => x | _ => dbgproc_stop_ db end) (dbgproc_thread_ db)
    (dbgproc_loop_ db) (effects db).

Definition tcp_of (s : uv_tcp_name) (db : DbgSrv) : uv_tcp_t :=
  match s with
  | s_dbgsrv_serv_ => dbgsrv_serv_ db
  | s_dbgsrv_clnt_ => dbgsrv_clnt_ db
  end.

Definition set_tcp (s : uv_tcp_name) (x : uv_tcp_t) (db : DbgSrv) : DbgSrv :=
  mkDbgSrv (v8_ db) (status_ db) (msg_queue_ db) (dbgsrv_port_ db)
    (match s with s_dbgsrv_serv_ => x | _ => dbgsrv_serv_ db end)
    (match s with s_dbgsrv_clnt_ => x | _ => dbgsrv_clnt_ db end) (dbgsrv_send_ db)
    (dbgsrv_stop_ db) (dbgsrv_thread_ db) (dbgsrv_loop_ db) (dbgproc_proc_ db)
    (dbgproc_stop_ db) (dbgproc_thread_ db) (dbgproc_loop_ db) (effects db).

Definition thread_of (t : uv_thread_name) (db : DbgSrv) : uv_thread_t :=
  match t with
  | t_dbgsrv_thread_ => dbgsrv_thread_ db
  | t_dbgproc_thread_ => dbgproc_thread_ db
  end.

Definition set_thread (t : uv_thread_name) (x : uv_thread_t) (db : DbgSrv) : DbgSrv :=
  mkDbgSrv (v8_ db) (status_ db) (msg_queue_ db) (dbgsrv_port_ db) (dbgsrv_serv_ db)
    (dbgsrv_clnt_ db) (dbgsrv_send_ db) (dbgsrv_stop_ db)
    (match t with t_dbgsrv_thread_ => x | _ => dbgsrv_thread_ db end) (dbgsrv_loop_ db)
    (dbgproc_proc_ db) (dbgproc_stop_ db)
    (match t with t_dbgproc_thread_ => x | _ => dbgproc_thread_ db end)
    (dbgproc_loop_ db) (effects db).

Definition loop_at (l : uv_loop_name) (db : DbgSrv) : uv_loop_t :=
  match l with
  | l_dbgsrv_loop_ => dbgsrv_loop_ db
  | l_dbgproc_loop_ => dbgproc_loop_ db
  end.

Definition set_loop (l : uv_loop_name) (x : uv_loop_t) (db : DbgSrv) : DbgSrv :=
  mkDbgSrv (v8_ db) (status_ db) (msg_queue_ db) (dbgsrv_port_ db) (dbgsrv_serv_ db)
    (dbgsrv_clnt_ db) (dbgsrv_send_ db) (dbgsrv_stop_ db) (dbgsrv_thread_ db)
    (match l with l_dbgsrv_loop_ => x | _ => dbgsrv_loop_ db end) (dbgproc_proc_ db)
    (dbgproc_stop_ db) (dbgproc_thread_ db)
    (match l with l_dbgproc_loop_ => x | _ => dbgproc_loop_ db end) (effects db).

(** The loop a handle is initialised on. *)
Definition loop_of_async (h : uv_async_name) : uv_loop_name :=
  match h with
  | a_dbgsrv_send_ | a_dbgsrv_stop_ => l_dbgsrv_loop_
  | a_dbgproc_proc_ | a_dbgproc_stop_ => l_dbgproc_loop_
  end.

Definition loop_of_tcp (s : uv_tcp_name) : uv_loop_name := l_dbgsrv_loop_.

Definition async_active (a : uv_async_t) : bool :=
  match a with async_idle | async_pending => true | _ => false end.

Definition tcp_active (s : uv_tcp_t) : bool :=
  match s with tcp_listening | tcp_reading _ => true | _ => false end.

Definition emit (e : Effect) (db : DbgSrv) : DbgSrv :=
  set_effects (effects db ++ [e]) db.

(** ** libuv calls *)

Definition uv_loop_init (l : uv_loop_name) (db : DbgSrv) : DbgSrv :=
  emit (fx_uv_loop_init l) db.

Definition uv_loop_close (l : uv_loop_name) (db : DbgSrv) : DbgSrv :=
  emit (fx_uv_loop_close l) db.

(** Initialising a handle that is active leaves its earlier registration
    with the loop behind. *)
Definition reinit (l : uv_loop_name) (active : bool) (db : DbgSrv) : DbgSrv :=
  set_loop l (if active then S (loop_at l db) else loop_at l db) db.

Definition uv_async_init (h : uv_async_name) (db : DbgSrv) : DbgSrv :=
  let db := reinit (loop_of_async h) (async_active (async_of h db)) db in
  emit (fx_uv_async_init h) (set_async h async_idle db).

(** [uv_async_send] marks an initialised handle as signalled; on a closed
    handle the signal is lost.  A handle that was never initialised holds
    no loop to wake. *)
Definition uv_async_send (h : uv_async_name) (db : DbgSrv) : Outcome DbgSrv :=
  match async_of h db with
  | async_uninit => Undefined (uninit_async h)
  | async_idle | async_pending =>
      Returns (emit (fx_uv_async_send h) (set_async h async_pending db))
  | async_closed => Returns (emit (fx_uv_async_send h) db)
  end.

Definition uv_close_async (h : uv_async_name) (db : DbgSrv) : DbgSrv :=
  emit (fx_uv_close_async h) (set_async h async_closed db).

Definition uv_close_tcp (s : uv_tcp_name) (db : DbgSrv) : DbgSrv :=
  emit (fx_uv_close_tcp s) (set_tcp s tcp_closed db).

(** [uv_tcp_init] writes a fresh handle over whatever the member held. *)
Definition uv_tcp_init (s : uv_tcp_name) (db : DbgSrv) : DbgSrv :=
  let db := reinit (loop_of_tcp s) (tcp_active (tcp_of s db)) db in
  set_tcp s tcp_init db.

Definition uv_thread_create (t : uv_thread_name) (db : DbgSrv) : DbgSrv :=
  emit (fx_uv_thread_create t) (set_thread t thread_running db).

Definition uv_write (s : uv_tcp_name) (buf : string) (db : DbgSrv) : DbgSrv :=
  emit (fx_uv_write (tcp_of s db) buf) db.

(** ** std::list operations used on [msg_queue_] *)

Definition push_front (x : string) (q : list string) : list string := x :: q.
Definition empty (q : list string) : bool := match q with [] => true | _ => false end.
Definition back (q : list string) : string := List.last q "".
Definition pop_back (q : list string) : list string := removelast q.

(** ** The bridge's callbacks *)

Definition recv_from_debugger_ (str : string) (db : DbgSrv) : Outcome DbgSrv :=
  let db := set_msg_queue_ (push_front str (msg_queue_ db)) db in
  uv_async_send a_dbgsrv_send_ db.

(** One turn of the [while] loop of [send_to_socket_]. *)
Definition send_one (db : DbgSrv) : DbgSrv :=
  let str := back (msg_queue_ db) in
  let db := uv_write s_dbgsrv_clnt_ str db in
  set_msg_queue_ (pop_back (msg_queue_ db)) db.

(** Keeps the equation of a test next to its result. *)
Definition inspect {A} (x : A) : {y : A | x = y} := exist _ x eq_refl.

Equations? send_to_socket_ (db : DbgSrv) : DbgSrv by wf (length (msg_queue_ db)) lt :=
  send_to_socket_ db with inspect (empty (msg_queue_ db)) := {
    | exist _ true _ := db;
    | exist _ false Hq := send_to_socket_ (send_one db) }.
Proof.
  simpl. destruct (msg_queue_ db) as [|x q]; [discriminate|].
  unfold pop_back. rewrite removelast_firstn_len, length_take. simpl. lia.
Qed.

Definition shutdown_ (db : DbgSrv) : DbgSrv :=
  let db :=
    if decide (status_ db = dbgsrv_connected) then
      let db := uv_close_async a_dbgsrv_send_ db in
      let db := uv_close_tcp s_dbgsrv_clnt_ db in
      set_status_ dbgsrv_started db
    else db in
  if decide (status_ db = dbgsrv_started) then
    let db := uv_close_tcp s_dbgsrv_serv_ db in
    let db := uv_close_async a_dbgsrv_stop_ db in
    set_status_ dbgsrv_offline db
  else db.

Definition dbgproc_do_stop_ (db : DbgSrv) : DbgSrv :=
  let db := uv_close_async a_dbgproc_proc_ db in
  uv_close_async a_dbgproc_stop_ db.

(** Running a registered callback: the bridge's own function acts on the
    bridge its [opq] points to; a host function is outside the bridge. *)
Definition invoke (c : debugger_cb * string * option opaque) (db : DbgSrv)
  : Outcome DbgSrv :=
  let '(cb, message, opq) := c in
  let db := emit (fx_callback cb message) db in
  match cb, opq with
  | cb_recv_from_debugger_, Some opq_DbgSrv => recv_from_debugger_ message db
  | _, _ => Returns db
  end.

Fixpoint invoke_all (cs : list (debugger_cb * string * option opaque)) (db : DbgSrv)
  : Outcome DbgSrv :=
  match cs with
  | [] => Returns db
  | c :: cs => db ← invoke c db; invoke_all cs db
  end.

Section DbgSrv.
Context `{E : Engine}.

Definition dbgproc_do_proc_ (db : DbgSrv) : Outcome DbgSrv :=
  let '(calls, v) := debugger_process (v8_ db) in
  invoke_all calls (set_v8_ v db).

(** The engine's debug agent reports [message] on its own (a break, an
    exception event): the installed message handler runs. *)
Definition engine_message (message : string) (db : DbgSrv) : Outcome DbgSrv :=
  if message_handler (v8_ db) then
    match debugger_message_handler message (v8_ db) with
    | Some c => invoke c db
    | None => Returns db
    end
  else Returns db.

(** *** Event loops *)

(** A loop runs the callback of a signalled async handle. *)
Definition dispatch (h : uv_async_name) (db : DbgSrv) : Outcome DbgSrv :=
  match async_of h db with
  | async_pending =>
      let db := set_async h async_idle db in
      match h with
      | a_dbgsrv_send_ => Returns (send_to_socket_ db)
      | a_dbgsrv_stop_ => Returns (shutdown_ db)
      | a_dbgproc_proc_ => dbgproc_do_proc_ db
      | a_dbgproc_stop_ => Returns (dbgproc_do_stop_ db)
      end
  | _ => Returns db
  end.

(** [uv_run (UV_RUN_DEFAULT)] returns when its loop has no active handle,
    reachable or left behind. *)
Definition loop_alive (l : uv_loop_name) (db : DbgSrv) : bool :=
  match l with
  | l_dbgsrv_loop_ =>
      tcp_active (dbgsrv_serv_ db) || tcp_active (dbgsrv_clnt_ db)
      || async_active (dbgsrv_send_ db) || async_active (dbgsrv_stop_ db)
      || (0 <? dbgsrv_loop_ db)%nat
  | l_dbgproc_loop_ =>
      async_active (dbgproc_proc_ db) || async_active (dbgproc_stop_ db)
      || (0 <? dbgproc_loop_ db)%nat
  end.

(** What is left for a loop thread to do once nothing signals it any
    more: run the signalled handles, in the order they were initialised. *)
Definition finish_loop (t : uv_thread_name) (db : DbgSrv) : Outcome DbgSrv :=
  match t with
  | t_dbgsrv_thread_ =>
      db ← dispatch a_dbgsrv_stop_ db; dispatch a_dbgsrv_send_ db
  | t_dbgproc_thread_ =>
      db ← dispatch a_dbgproc_proc_ db; dispatch a_dbgproc_stop_ db
  end.

Definition loop_of (t : uv_thread_name) : uv_loop_name :=
  match t with
  | t_dbgsrv_thread_ => l_dbgsrv_loop_
  | t_dbgproc_thread_ => l_dbgproc_loop_
  end.

(** [uv_thread_join] returns when the thread has left [uv_run]. *)
Definition uv_thread_join (t : uv_thread_name) (db : DbgSrv) : Outcome DbgSrv :=
  match thread_of t db with
  | thread_uninit => Undefined (uninit_thread t)
  | thread_joined => Undefined (joined_thread t)
  | thread_running =>
      db ← finish_loop t db;
      if loop_alive (loop_of t) db then Blocks t
      else Returns (emit (fx_uv_thread_join t) (set_thread t thread_joined db))
  end.

(** *** Construction, destruction, start *)

Definition DbgSrv_ctor (v8 : _V8) : DbgSrv :=
  let db := mkDbgSrv v8 dbgsrv_offline [] 0 tcp_uninit tcp_uninit
              async_uninit async_uninit thread_uninit 0%nat
              async_uninit async_uninit thread_uninit 0%nat [] in
  let db := set_dbgsrv_port_ 0 db in
  let db := set_status_ dbgsrv_offline db in
  let db := uv_loop_init l_dbgsrv_loop_ db in
  let db := uv_loop_init l_dbgproc_loop_ db in
  let db := uv_async_init a_dbgproc_proc_ db in
  let db := uv_async_init a_dbgproc_stop_ db in
  uv_thread_create t_dbgproc_thread_ db.

Definition DbgSrv_dtor (db : DbgSrv) : Outcome DbgSrv :=
  let db := emit fx_debugger_stop (set_v8_ (debugger_stop (v8_ db)) db) in
  db ← uv_async_send a_dbgsrv_stop_ db;
  db ← uv_thread_join t_dbgsrv_thread_ db;
  let db := uv_loop_close l_dbgsrv_loop_ db in
  db ← uv_async_send a_dbgproc_stop_ db;
  db ← uv_thread_join t_dbgproc_thread_ db;
  Returns (uv_loop_close l_dbgproc_loop_ db).

(** What the operating system answers during [start]. *)
Record start_env := {
  uv_tcp_bind : Z;
  uv_tcp_getsockname : Z;
  sin_port : Z;             (* [ntohs(addr.sin_port)] after [getsockname] *)
  uv_listen : Z;
}.

Definition start (port : Z) (os : start_env) (db : DbgSrv) : bool * DbgSrv :=
  let db := uv_tcp_init s_dbgsrv_serv_ db in
  if negb (uv_tcp_bind os =? 0)%Z then (false, db)
  else
    let db := set_tcp s_dbgsrv_serv_ tcp_bound db in
    let named :=
      if (port =? 0)%Z then
        if negb (uv_tcp_getsockname os =? 0)%Z then None
        else Some (set_dbgsrv_port_ (sin_port os) db)
      else Some (set_dbgsrv_port_ port db) in
    match named with
    | None => (false, db)
    | Some db =>
        if negb (uv_listen os =? 0)%Z then (false, db)
        else
          let db := set_tcp s_dbgsrv_serv_ tcp_listening db in
          let '(_, v) := debugger_init (Some cb_recv_from_debugger_) opq_DbgSrv (v8_ db) in
          let db := set_v8_ v db in
          let db := set_status_ dbgsrv_started db in
          let db := uv_async_init a_dbgsrv_stop_ db in
          let db := uv_thread_create t_dbgsrv_thread_ db in
          (true, db)
    end.

Definition get_port (db : DbgSrv) : Z := dbgsrv_port_ db.

(** The statements of the destructor one by one, and their run with the
    engine reporting the messages of [between] after each statement. *)
Definition dtor_stmts : list (DbgSrv -> Outcome DbgSrv) :=
  [ fun db => Returns (emit fx_debugger_stop (set_v8_ (debugger_stop (v8_ db)) db));
    uv_async_send a_dbgsrv_stop_;
    uv_thread_join t_dbgsrv_thread_;
    fun db => Returns (uv_loop_close l_dbgsrv_loop_ db);
    uv_async_send a_dbgproc_stop_;
    uv_thread_join t_dbgproc_thread_;
    fun db => Returns (uv_loop_close l_dbgproc_loop_ db) ].

Fixpoint engine_messages (messages : list string) (db : DbgSrv) : Outcome DbgSrv :=
  match messages with
  | [] => Returns db
  | m :: messages => db ← engine_message m db; engine_messages messages db
  end.

Fixpoint run_stmts (stmts : list (DbgSrv -> Outcome DbgSrv))
    (between : list (list string)) (db : DbgSrv) : Outcome DbgSrv :=
  match stmts with
  | [] => Returns db
  | stmt :: stmts =>
      db ← stmt db;
      db ← engine_messages (hd [] between) db;
      run_stmts stmts (tl between) db
  end.

(** *** Socket callbacks *)

(** [accept_]: [status] is what libuv reports for the connection event,
    [uv_accept] what accepting it yields: the peer, or a failure. *)
Definition accept_ (status : Z) (uv_accept : option nat) (db : DbgSrv) : DbgSrv :=
  if (status <? 0)%Z then db
  else
    let db := uv_tcp_init s_dbgsrv_clnt_ db in
    match uv_accept with
    | None => uv_close_tcp s_dbgsrv_clnt_ db
    | Some peer =>
        let db := set_tcp s_dbgsrv_clnt_ (tcp_accepted peer) db in
        let db := uv_async_init a_dbgsrv_send_ db in
        let db := set_tcp s_dbgsrv_clnt_ (tcp_reading peer) db in
        set_status_ dbgsrv_connected db
    end.

Definition recv_from_socket_ (nread : Z) (base : string) (db : DbgSrv)
  : Outcome DbgSrv :=
  if (nread =? 0)%Z then Returns db
  else if (nread <? 0)%Z then
    let db := uv_close_async a_dbgsrv_send_ db in
    let db := uv_close_tcp s_dbgsrv_clnt_ db in
    Returns (set_status_ dbgsrv_started db)
  else
    let str := String.substring 0 (Z.to_nat nread) base in
    r ← debugger_send str (v8_ db);
    let db := set_v8_ r.2 db in
    uv_async_send a_dbgproc_proc_ db.

End DbgSrv.

(** ** A small concrete engine

    [mini_js] knows a handful of scripts and builtins.  It stands in for the
    real engine wherever a statement below is run on concrete input. *)

Module MiniJS.

Inductive script :=
| s_number (n : Z)                      (* [n] *)
| s_assign (x : string) (n : Z)         (* [x = n] *)
| s_add (x : string) (n : Z)            (* [x + n] *)
| s_object (v : Value)                  (* an object literal *)
| s_throw (v : Value)                   (* [throw v] *)
| s_set (x : string) (v : Value) (n : Z). (* [x = v; n] *)

(** Function values: 1 is [Math.max], 2 is [isNaN], 3 is a function whose
    body is [throw 'boom'], 4 and 5 are [JSON.parse] and [JSON.stringify],
    6 is [Function.prototype.apply], 7 is a function returning 1 whose own
    [apply] property is 8, a function returning 42. *)
Definition f_max := VFunction 1.
Definition f_isNaN := VFunction 2.
Definition f_boom := VFunction 3.
Definition f_parse := VFunction 4.
Definition f_stringify := VFunction 5.
Definition f_apply := VFunction 6.
Definition f_one := VFunction 7.
Definition f_42 := VFunction 8.

Definition JSON : Value := VObject [("parse", f_parse); ("stringify", f_stringify)].

Definition builtins : Globals :=
  <["Math" := DataProperty (VObject [("max", f_max)])]>
  (<["JSON" := DataProperty JSON]>
  (<["isNaN" := DataProperty f_isNaN]> ∅)).

Definition Compile (source : Value) : Maybe script :=
  match source with
  | VString "1" => Just (s_number 1)
  | VString "x = 1" => Just (s_assign "x" 1)
  | VString "x + 1" => Just (s_add "x" 1)
  | VString "({toJSON: function () { throw 'boom' }})" =>
      Just (s_object (VObject [("toJSON", f_boom)]))
  | VString "throw 'boom'" => Just (s_throw (VString "boom"))
  | VString "JSON = undefined; 1" => Just (s_set "JSON" VUndefined 1)
  | VString "f = function () { return 1 }; f.apply = function () { return 42 }; 1" =>
      Just (s_set "f" f_one 1)
  | _ => Threw (VString "SyntaxError: Unexpected token")
  end.

Definition Run (s : script) (g : Globals) : Maybe Value * Globals :=
  match s with
  | s_number n => (Just (VNumber n), g)
  | s_assign x n => (Just (VNumber n), <[x := DataProperty (VNumber n)]> g)
  | s_add x n =>
      match g !! x with
      | Some (DataProperty (VNumber m)) => (Just (VNumber (m + n)), g)
      | _ => (Threw (VString ("ReferenceError: " +:+ x +:+ " is not defined")), g)
      end
  | s_object v => (Just v, g)
  | s_throw v => (Threw v, g)
  | s_set x v n => (Just (VNumber n), <[x := DataProperty v]> g)
  end.

Fixpoint own (props : list (string * Value)) (name : string) : Value :=
  match props with
  | [] => VUndefined
  | (k, v) :: props => if String.eqb k name then v else own props name
  end.

Definition Object_Get (object key : Value) (g : Globals) : Maybe Value * Globals :=
  match key with
  | VString name =>
      match object with
      | VObject props => (Just (own props name), g)
      | VFunction 7 => (Just (if String.eqb name "apply" then f_42 else VUndefined), g)
      | VFunction _ => (Just (if String.eqb name "apply" then f_apply else VUndefined), g)
      | _ => (Just VUndefined, g)
      end
  | _ => (Just VUndefined, g)
  end.

Definition dquote : string := String (Ascii.ascii_of_nat 34) EmptyString.

Definition max_of (args : list Value) : Z :=
  foldr (fun v acc => match v with VNumber n => Z.max n acc | _ => acc end) 0%Z args.

(** The functions written in the language itself and the plain builtins. *)
Definition plain (f this : Value) (args : list Value) (g : Globals)
  : Maybe Value * Globals :=
  match f with
  | VFunction 1 => (Just (VNumber (max_of args)), g)
  | VFunction 2 =>
      (Just (VBool (match args with VNumber _ :: _ => false | _ => true end)), g)
  | VFunction 3 => (Threw (VString "boom"), g)
  | VFunction 7 => (Just (VNumber 1), g)
  | VFunction 8 => (Just (VNumber 42), g)
  | _ => (Threw (VString "TypeError: not a function"), g)
  end.

Definition JSON_parse (text : Value) (g : Globals) : Maybe Value * Globals :=
  match text with
  | VString "[]" => (Just (VArray []), g)
  | VString "[1]" => (Just (VArray [VNumber 1]), g)
  | VString "[1,2]" => (Just (VArray [VNumber 1; VNumber 2]), g)
  | VString "1" => (Just (VNumber 1), g)
  | _ => (Threw (VString "SyntaxError: Unexpected token in JSON"), g)
  end.

Definition JSON_stringify (v : Value) (g : Globals) : Maybe Value * Globals :=
  match v with
  | VNumber n => (Just (VString (pretty n)), g)
  | VBool true => (Just (VString "true"), g)
  | VBool false => (Just (VString "false"), g)
  | VNull => (Just (VString "null"), g)
  | VString s => (Just (VString (dquote +:+ s +:+ dquote)), g)
  | VArray [] => (Just (VString "[]"), g)
  | VObject (("toJSON", f) :: _) =>
      match (plain f v [] g).1 with
      | Just r => (Just r, g)
      | Threw e => (Threw e, g)
      end
  | VObject _ => (Just (VString "{}"), g)
  | VArray _ => (Just (VString "[...]"), g)
  | VUndefined | VFunction _ | VGlobal => (Just VUndefined, g)
  end.

(** Every function but [apply]. *)
Definition direct (f this : Value) (args : list Value) (g : Globals)
  : Maybe Value * Globals :=
  match f with
  | VFunction 4 => JSON_parse (hd VUndefined args) g
  | VFunction 5 => JSON_stringify (hd VUndefined args) g
  | _ => plain f this args g
  end.

Definition Call (f this : Value) (args : list Value) (g : Globals)
  : Maybe Value * Globals :=
  match f with
  | VFunction 6 =>
      match args with
      | [thisArg; VArray elems] => direct this thisArg elems g
      | _ => direct this (hd VUndefined args) [] g
      end
  | _ => direct f this args g
  end.

Definition ToUtf8 (v : Value) : option string :=
  match v with
  | VUndefined => Some "undefined"
  | VNull => Some "null"
  | VBool true => Some "true"
  | VBool false => Some "false"
  | VNumber n => Some (pretty n)
  | VString s => Some s
  | VArray _ => Some ""
  | VObject (("toString", _) :: _) => None
  | VObject _ => Some "[object Object]"
  | VFunction _ => Some "function () { [native code] }"
  | VGlobal => Some "[object global]"
  end.

Definition Debug_replies (command : string) : list string :=
  ["response:" +:+ command].

End MiniJS.

#[local] Instance mini_js : Engine := {|
  Script := MiniJS.script;
  builtins := MiniJS.builtins;
  Compile := MiniJS.Compile;
  Run := MiniJS.Run;
  Object_Get := MiniJS.Object_Get;
  Call := MiniJS.Call;
  ToUtf8 := MiniJS.ToUtf8;
  Debug_replies := MiniJS.Debug_replies;
|}.

(** ** Statements about the model *)

Section Statements.
Context `{E : Engine}.

(** What [json_stringify] finds as [JSON.stringify] in the global object
    [g], and what calling it on [value] gives: the reads and the call it
    makes, none of them failing. *)
Definition stringify_of (value : Value) (g : Globals) (r : Maybe Value) (g' : Globals)
  : Prop :=
  exists j json stringify g1 g2,
    Get (VString "JSON") g = (Just j, g1) /\
    ToObject j = Some json /\
    Object_Get json (VString "stringify") g1 = (Just stringify, g2) /\
    Call stringify json [value] g2 = (r, g').

(** The same for [json_parse] and [JSON.parse]. *)
Definition parse_of (str : Value) (g : Globals) (r : Maybe Value) (g' : Globals)
  : Prop :=
  exists j json parse g1 g2,
    Get (VString "JSON") g = (Just j, g1) /\
    ToObject j = Some json /\
    Object_Get json (VString "parse") g1 = (Just parse, g2) /\
    Call parse json [str] g2 = (r, g').


(** The public operations of an instance, and the states a sequence of
    them leads to. *)
Inductive V8_op :=
| op_eval (src : string)
| op_call (func args : string)
| op_debugger_init (cb : option debugger_cb) (cbopq : opaque)
| op_debugger_send (cmd : string)
| op_debugger_process
| op_debugger_stop.

Definition V8_step (op : V8_op) (v : _V8) : Outcome _V8 :=
  match op with
  | op_eval src => r ← eval src v; Returns r.2
  | op_call func args => r ← call func args v; Returns r.2
  | op_debugger_init cb cbopq => Returns (debugger_init cb cbopq v).2
  | op_debugger_send cmd => r ← debugger_send cmd v; Returns r.2
  | op_debugger_process => Returns (debugger_process v).2
  | op_debugger_stop => Returns (debugger_stop v)
  end.

Fixpoint V8_run (ops : list V8_op) (v : _V8) : Outcome _V8 :=
  match ops with
  | [] => Returns v
  | op :: ops => v ← V8_step op v; V8_run ops v
  end.

(** [v'] differs from [v] in the contexts of its isolate at most. *)
Definition same_but_isolate_ (v v' : _V8) : Prop :=
  context_ v' = context_ v /\
  dbg_isolate_ v' = dbg_isolate_ v /\
  callback_ v' = callback_ v /\
  callbackopq_ v' = callbackopq_ v /\
  message_handler v' = message_handler v /\
  commands v' = commands v.

(** A callback is registered only after [dbg_isolate_] was assigned. *)
Definition callback_has_isolate (v : _V8) : Prop :=
  is_Some (callback_ v) -> is_Some (dbg_isolate_ v).

(** The second example of the specification for [call], as it states
    it: the message names the argument text. *)
Definition call_example_stated : Prop :=
  exists v',
    call "Math.max" "not-an-array" V8_ctor
    = Returns ("TypeError: 'not-an-array' is not an array", v').

(** What happens on the outbound path: the engine reports a message, or
    the network loop runs the send-wake handler of a signalled handle. *)
Inductive relay_event :=
| engine_reports (message : string)
| send_wake.

Definition relay_step (ev : relay_event) (db : DbgSrv) : Outcome DbgSrv :=
  match ev with
  | engine_reports message => engine_message message db
  | send_wake => dispatch a_dbgsrv_send_ db
  end.

Fixpoint relay_run (evs : list relay_event) (db : DbgSrv) : Outcome DbgSrv :=
  match evs with
  | [] => Returns db
  | ev :: evs => db ← relay_step ev db; relay_run evs db
  end.

(** The messages the engine produced, in order. *)
Definition produced (evs : list relay_event) : list string :=
  omap (fun ev => match ev with engine_reports m => Some m | send_wake => None end) evs.

(** The payloads written to the socket, in order. *)
Definition written (fx : list Effect) : list string :=
  omap (fun e => match e with fx_uv_write _ buf => Some buf | _ => None end) fx.

Definition writes (db : DbgSrv) : list string := written (effects db).

(** The bridge is the registered consumer of the engine's debug messages
    and its send-wake handle has been initialised. *)
Definition relaying (db : DbgSrv) : Prop :=
  message_handler (v8_ db) = true /\
  callback_ (v8_ db) = Some cb_recv_from_debugger_ /\
  callbackopq_ (v8_ db) = Some opq_DbgSrv /\
  dbgsrv_send_ db <> async_uninit.

(** The send-wake handle is live, and idle only with an empty queue. *)
Definition drained (db : DbgSrv) : Prop :=
  async_active (dbgsrv_send_ db) = true /\
  (dbgsrv_send_ db = async_idle -> msg_queue_ db = []).

(** [start] has succeeded and the loops have not been stopped: both
    threads run, the listener listens, no handle was initialised again
    while active, and the client and send-wake handles are live only in the
    connected state. *)
Definition bridge_running (db : DbgSrv) : Prop :=
  dbgsrv_thread_ db = thread_running /\
  dbgproc_thread_ db = thread_running /\
  dbgsrv_serv_ db = tcp_listening /\
  async_active (dbgsrv_stop_ db) = true /\
  async_active (dbgproc_proc_ db) = true /\
  async_active (dbgproc_stop_ db) = true /\
  dbgsrv_loop_ db = 0%nat /\
  dbgproc_loop_ db = 0%nat /\
  match status_ db with
  | dbgsrv_offline => False
  | dbgsrv_started =>
      tcp_active (dbgsrv_clnt_ db) = false /\ async_active (dbgsrv_send_ db) = false
  | dbgsrv_connected => True
  end.

(** The calls the destructor makes, by the state it finds. *)
Definition dtor_effects (st : Status) : list Effect :=
  [fx_debugger_stop; fx_uv_async_send a_dbgsrv_stop_]
  ++ (if decide (st = dbgsrv_connected)
      then [fx_uv_close_async a_dbgsrv_send_; fx_uv_close_tcp s_dbgsrv_clnt_]
      else [])
  ++ [fx_uv_close_tcp s_dbgsrv_serv_; fx_uv_close_async a_dbgsrv_stop_;
      fx_uv_thread_join t_dbgsrv_thread_; fx_uv_loop_close l_dbgsrv_loop_;
      fx_uv_async_send a_dbgproc_stop_;
      fx_uv_close_async a_dbgproc_proc_; fx_uv_close_async a_dbgproc_stop_;
      fx_uv_thread_join t_dbgproc_thread_; fx_uv_loop_close l_dbgproc_loop_].

(** Once the message handler is removed, the statements of the
    destructor and the callbacks its joins run leave [v8_] alone. *)
Definition silent (db : DbgSrv) : Prop := message_handler (v8_ db) = false.

(** The state the destructor leaves behind a running bridge. *)
Definition dtor_result (db : DbgSrv) : DbgSrv :=
  let db := emit fx_debugger_stop (set_v8_ (debugger_stop (v8_ db)) db) in
  let db := emit (fx_uv_async_send a_dbgsrv_stop_) db in
  let db := shutdown_ db in
  let db := emit (fx_uv_thread_join t_dbgsrv_thread_)
              (set_thread t_dbgsrv_thread_ thread_joined db) in
  let db := uv_loop_close l_dbgsrv_loop_ db in
  let db := emit (fx_uv_async_send a_dbgproc_stop_) db in
  let db := dbgproc_do_stop_ db in
  let db := emit (fx_uv_thread_join t_dbgproc_thread_)
              (set_thread t_dbgproc_thread_ thread_joined db) in
  uv_loop_close l_dbgproc_loop_ db.

End Statements.

(** ** The process-wide runtime *)

(** [initialize] and [dispose] act on the static [platform] pointer, here
    true when it is not null; [InitializeICU] and [Initialize] are what the
    two engine calls of those names answer, and [CreateDefaultPlatform]
    is taken to return a platform. *)
Definition initialize (InitializeICU Initialize : bool) (platform : bool) : bool * bool :=
  if platform then (false, platform)
  else if negb InitializeICU then (false, platform)
  else (Initialize, true).

Definition dispose (platform : bool) : bool * bool :=
  if negb platform then (false, platform)
  else (true, false).

Inductive runtime_op :=
| op_initialize (InitializeICU Initialize : bool)
| op_dispose.

(** A sequence of calls: what each returned, and the pointer at the end. *)
Fixpoint runtime_run (ops : list runtime_op) (platform : bool)
  : list (runtime_op * bool) * bool :=
  match ops with
  | [] => ([], platform)
  | op :: ops =>
      let '(r, platform) :=
        match op with
        | op_initialize icu ok => initialize icu ok platform
        | op_dispose => dispose platform
        end in
      let '(log, platform) := runtime_run ops platform in
      ((op, r) :: log, platform)
  end.

Definition initialized (log : list (runtime_op * bool)) : nat :=
  length (List.filter
            (fun c => match c with (op_initialize _ _, true) => true | _ => false end) log).

Definition disposed (log : list (runtime_op * bool)) : nat :=
  length (List.filter
            (fun c => match c with (op_dispose, true) => true | _ => false end) log).

(** The platform pointer as a number: 1 when installed. *)
Definition installed (platform : bool) : nat := if platform then 1 else 0.

(** ** The registration of the debugger callback *)

(** A callback is registered only with the message handler installed,
    and the handler is installed only once the opaque pointer was assigned. *)
Definition registered (v : _V8) : Prop :=
  (is_Some (callback_ v) -> message_handler v = true) /\
  (message_handler v = true -> is_Some (callbackopq_ v)).

(** Sending the commands of a list, one call each. *)
Definition send_ops (cmds : list string) : list V8_op := map op_debugger_send cmds.

(** ** Runs of the bridge *)

Section Runs.
Context `{E : Engine}.

(** What the two loops and the engine make happen on a bridge: a
    connection event on the listener, a read event on the client, a message
    of the engine's debug agent, and a loop running the callback of an
    async handle. *)
Inductive bridge_event :=
| ev_connection (status : Z) (uv_accept : option nat)
| ev_read (nread : Z) (base : string)
| ev_message (message : string)
| ev_wake (h : uv_async_name).

Definition bridge_step (ev : bridge_event) (db : DbgSrv) : Outcome DbgSrv :=
  match ev with
  | ev_connection status uv_accept => Returns (accept_ status uv_accept db)
  | ev_read nread base => recv_from_socket_ nread base db
  | ev_message message => engine_message message db
  | ev_wake h => dispatch h db
  end.

Fixpoint bridge_run (evs : list bridge_event) (db : DbgSrv) : Outcome DbgSrv :=
  match evs with
  | [] => Returns db
  | ev :: evs => db ← bridge_step ev db; bridge_run evs db
  end.

(** The command a read event of [nread] bytes forwards. *)
Definition chunk_command (nread : Z) (base : string) : string :=
  c_str (String.substring 0 (Z.to_nat nread) base).

(** The outbound messages an event makes the engine hand over: the message
    itself, or the replies to the queued commands when the processing
    loop runs its handler. *)
Definition step_produced (ev : bridge_event) (db : DbgSrv) : list string :=
  match ev with
  | ev_message message => [message]
  | ev_wake a_dbgproc_proc_ =>
      match dbgproc_proc_ db with
      | async_pending => concat (map Debug_replies (commands (v8_ db)))
      | _ => []
      end
  | _ => []
  end.

Fixpoint run_produced (evs : list bridge_event) (db : DbgSrv) : list string :=
  match evs with
  | [] => []
  | ev :: evs =>
      step_produced ev db ++
      match bridge_step ev db with
      | Returns db => run_produced evs db
      | _ => []
      end
  end.

(** The bridge is the registered consumer of the engine's messages, the
    handles it signals have been initialised, and [debugger_init] has run. *)
Definition consuming (db : DbgSrv) : Prop :=
  message_handler (v8_ db) = true /\
  callback_ (v8_ db) = Some cb_recv_from_debugger_ /\
  callbackopq_ (v8_ db) = Some opq_DbgSrv /\
  is_Some (dbg_isolate_ (v8_ db)) /\
  dbgsrv_send_ db <> async_uninit /\
  dbgproc_proc_ db <> async_uninit.

(** [start] has succeeded, nothing has signalled a stop handle and no
    handle was initialised again while active. *)
Definition bridge_serving (db : DbgSrv) : Prop :=
  dbgsrv_thread_ db = thread_running /\
  dbgproc_thread_ db = thread_running /\
  dbgsrv_serv_ db = tcp_listening /\
  dbgsrv_stop_ db = async_idle /\
  async_active (dbgproc_proc_ db) = true /\
  dbgproc_stop_ db = async_idle /\
  dbgsrv_loop_ db = 0%nat /\
  dbgproc_loop_ db = 0%nat /\
  match status_ db with
  | dbgsrv_offline => False
  | dbgsrv_started =>
      tcp_active (dbgsrv_clnt_ db) = false /\ async_active (dbgsrv_send_ db) = false
  | dbgsrv_connected => True
  end.

(** A connection event that arrives while no client is connected (or
    reports an error): the only ones a bridge with one client at a time
    would have to handle. *)
Definition one_at_a_time (ev : bridge_event) (db : DbgSrv) : Prop :=
  match ev with
  | ev_connection status _ => (status < 0)%Z \/ status_ db = dbgsrv_started
  | _ => True
  end.

Fixpoint one_client (evs : list bridge_event) (db : DbgSrv) : Prop :=
  match evs with
  | [] => True
  | ev :: evs =>
      one_at_a_time ev db /\
      match bridge_step ev db with
      | Returns db => one_client evs db
      | _ => True
      end
  end.

(** The payloads written, each with the stream it was written to. *)
Definition written_to (fx : list Effect) : list (uv_tcp_t * string) :=
  omap (fun e => match e with fx_uv_write s buf => Some (s, buf) | _ => None end) fx.

(** What [uv_async_send] makes of an initialised handle. *)
Definition signalled (a : uv_async_t) : uv_async_t :=
  match a with async_idle | async_pending => async_pending | a => a end.

(** The bridge after the engine ran its callback on [messages], one by
    one: each is pushed at the front of the queue and the send handle is
    signalled. *)
Definition enqueued (messages : list string) (db : DbgSrv) : DbgSrv :=
  mkDbgSrv (v8_ db) (status_ db) (rev messages ++ msg_queue_ db) (dbgsrv_port_ db)
    (dbgsrv_serv_ db) (dbgsrv_clnt_ db)
    (match messages with [] => dbgsrv_send_ db | _ => signalled (dbgsrv_send_ db) end)
    (dbgsrv_stop_ db) (dbgsrv_thread_ db) (dbgsrv_loop_ db)
    (dbgproc_proc_ db) (dbgproc_stop_ db) (dbgproc_thread_ db) (dbgproc_loop_ db)
    (effects db ++
     concat (map (fun m => [fx_callback cb_recv_from_debugger_ m;
                            fx_uv_async_send a_dbgsrv_send_]) messages)).

(** The bridge after the client's reads forwarded [cmds] to the engine:
    the commands wait in the engine and the processing handle is
    signalled. *)
Definition forwarded (cmds : list string) (db : DbgSrv) : DbgSrv :=
  mkDbgSrv (set_commands (commands (v8_ db) ++ cmds) (v8_ db))
    (status_ db) (msg_queue_ db) (dbgsrv_port_ db)
    (dbgsrv_serv_ db) (dbgsrv_clnt_ db) (dbgsrv_send_ db)
    (dbgsrv_stop_ db) (dbgsrv_thread_ db) (dbgsrv_loop_ db)
    (match cmds with [] => dbgproc_proc_ db | _ => signalled (dbgproc_proc_ db) end)
    (dbgproc_stop_ db) (dbgproc_thread_ db) (dbgproc_loop_ db)
    (effects db ++ map (fun _ => fx_uv_async_send a_dbgproc_proc_) cmds).

(** The engine's messages go to a function of the host, and the bridge
    has queued and written nothing. *)
Definition unheard (fn : nat) (db : DbgSrv) : Prop :=
  callback_ (v8_ db) = Some (cb_host fn) /\
  is_Some (dbg_isolate_ (v8_ db)) /\
  dbgproc_proc_ db <> async_uninit /\
  msg_queue_ db = [] /\
  writes db = [].

(** Read events that carry data. *)
Definition read_events (chunks : list (Z * string)) : list bridge_event :=
  map (fun c => ev_read c.1 c.2) chunks.

End Runs.

(** ** Concrete inputs *)

(** What the operating system may answer to [start]: all calls succeed and
    port 49152 is assigned; or the bind succeeds and the listen fails with
    [UV_EADDRINUSE]; or the bind fails with [UV_EACCES]. *)
Definition os_ok : start_env :=
  {| uv_tcp_bind := 0; uv_tcp_getsockname := 0; sin_port := 49152; uv_listen := 0 |}.
Definition os_listen_fails : start_env :=
  {| uv_tcp_bind := 0; uv_tcp_getsockname := 0; sin_port := 49152; uv_listen := -98 |}.
Definition os_bind_fails : start_env :=
  {| uv_tcp_bind := -13; uv_tcp_getsockname := 0; sin_port := 0; uv_listen := 0 |}.

(** A bridge that was started and has accepted peer 1. *)
Definition connected_bridge : DbgSrv :=
  accept_ 0 (Some 1) (start 0 os_ok (DbgSrv_ctor V8_ctor)).2.

(** An instance on which the host registered a callback of its own. *)
Definition host_v8 : _V8 := (debugger_init (Some (cb_host 1)) (opq_host 1) V8_ctor).2.

(** A client connects, sends a command of three bytes and leaves. *)
Definition short_visit : list bridge_event :=
  [ev_connection 0 (Some 1); ev_read 3 "abc"; ev_wake a_dbgproc_proc_; ev_read (-4095) ""].

(** The engine reports a message, a command is read and processed, the
    client leaves, the engine reports again and a second client connects. *)
Definition two_clients : list bridge_event :=
  [ev_message "a"; ev_read 1 "c"; ev_wake a_dbgproc_proc_; ev_read (-4095) "";
   ev_message "b"; ev_connection 0 (Some 2); ev_wake a_dbgsrv_send_].

(** * Properties *)

(** ** The outcome monad *)

Lemma Returns_bind {A B} (a : A) (k : A -> Outcome B) : Returns a ≫= k = k a.
Proof. reflexivity. Qed.

Lemma bind_Returns {A B} (m : Outcome A) (k : A -> Outcome B) b :
  m ≫= k = Returns b -> exists a, m = Returns a /\ k a = Returns b.
Proof. destruct m; simpl; intros; try discriminate; eauto. Qed.

(** ** The concrete engine at work *)

Example mini_eval_number : exists v, eval "1" V8_ctor = Returns ("1", v).
Proof. eexists. reflexivity. Qed.

Example mini_eval_syntax_error :
  exists v, eval "1 +" V8_ctor = Returns ("SyntaxError: Unexpected token", v).
Proof. eexists. reflexivity. Qed.

Example mini_eval_throw : exists v, eval "throw 'boom'" V8_ctor = Returns ("boom", v).
Proof. eexists. reflexivity. Qed.

Example mini_call_isNaN : exists v, call "isNaN" "[1]" V8_ctor = Returns ("false", v).
Proof. eexists. reflexivity. Qed.

(** ** The evaluation context of [_V8] *)

Section V8_facts.
Context `{E : Engine}.

Lemma context__set_Global c g v : context_ (set_Global c g v) = context_ v.
Proof. reflexivity. Qed.


Lemma new_context_stored v c : context_ v = Some c -> new_context v = (c, v).
Proof. unfold new_context. intros Hc. by rewrite Hc. Qed.

Lemma new_context_context_ v : context_ (new_context v).2 = context_ v.
Proof. unfold new_context. by destruct (context_ v) eqn:Hc. Qed.

Lemma new_context_same v : same_but_isolate_ v (new_context v).2.
Proof. unfold new_context, same_but_isolate_. by destruct (context_ v) eqn:Hc. Qed.

Lemma to_std_string_ToString v : to_std_string (ToString v) = to_std_string (Some v).
Proof.
  unfold ToString, to_std_string.
  by destruct (Utf8Value (Some v)) eqn:Hv.
Qed.

(** [json_stringify] and [json_parse] by what they find and call. *)
Lemma json_stringify_of value g r g' :
  stringify_of value g r g' ->
  json_stringify value g =
  Returns (match r with
           | Just json => ToString json
           | Threw _ => Some (VString EmptyString)
           end, g').
Proof.
  intros (j & json & stringify & g1 & g2 & Hj & Ho & Hs & Hc).
  unfold json_stringify. change (new_string "JSON") with (VString "JSON").
  change (new_string "stringify") with (VString "stringify").
  rewrite Hj. simpl. rewrite Ho. simpl. rewrite Hs. simpl. rewrite Hc.
  by destruct r.
Qed.

Lemma json_parse_of str g r g' :
  parse_of str g r g' ->
  json_parse str g =
  Returns (match r with Just result => Some result | Threw _ => None end, g').
Proof.
  intros (j & json & parse & g1 & g2 & Hj & Ho & Hs & Hc).
  unfold json_parse. change (new_string "JSON") with (VString "JSON").
  change (new_string "parse") with (VString "parse").
  rewrite Hj. simpl. rewrite Ho. simpl. rewrite Hs. simpl. rewrite Hc.
  by destruct r.
Qed.

(** Without an object under the name [JSON] the encoder is called
    through an empty handle. *)
Lemma json_stringify_no_JSON value g j g1 :
  Get (VString "JSON") g = (Just j, g1) -> ToObject j = None ->
  json_stringify value g = Undefined empty_Local.
Proof.
  intros Hj Ho. unfold json_stringify. change (new_string "JSON") with (VString "JSON").
  rewrite Hj. simpl. by rewrite Ho.
Qed.

Lemma eval_same src v r : eval src v = Returns r -> same_but_isolate_ v r.2.
Proof.
  unfold eval. intros H. pose proof (new_context_same v) as Hn.
  destruct (new_context v) as [c v0]. simpl in Hn.
  destruct (Compile _); [|injection H as <-; exact Hn].
  destruct (Run _ _) as [[result|e] g]; [|injection H as <-; exact Hn].
  destruct (json_stringify _ _) as [[l g']| |]; simpl in H; try discriminate.
  injection H as <-. exact Hn.
Qed.

Lemma call_same func args v r : call func args v = Returns r -> same_but_isolate_ v r.2.
Proof.
  unfold call. intros H. pose proof (new_context_same v) as Hn.
  destruct (new_context v) as [c v0]. simpl in Hn.
  destruct (Get _ _) as [[f|e] g]; [|injection H as <-; exact Hn].
  destruct (negb (IsFunction f)); [injection H as <-; exact Hn|].
  destruct (Object_Get _ _ _) as [[apply|e] g0]; simpl in H; [|discriminate].
  destruct (json_parse _ _) as [[[arr|] g1]| |]; simpl in H; try discriminate;
    [|injection H as <-; exact Hn].
  destruct (negb (IsArray arr)); [injection H as <-; exact Hn|].
  destruct (Call _ _ _ _) as [[result|e] g2]; [|injection H as <-; exact Hn].
  destruct (json_stringify _ _) as [[l g']| |]; simpl in H; try discriminate.
  injection H as <-. exact Hn.
Qed.






(** The text [eval] returns once the script ran, by what the encoder it
    finds returns, and the state it leaves. *)
Lemma eval_ran src v c script result g r g' :
  context_ v = Some c ->
  Compile (new_string src) = Just script ->
  Run script (Global c v) = (Just result, g) ->
  stringify_of result g r g' ->
  eval src v =
  Returns (match r with
           | Just json => to_std_string (Some json)
           | Threw _ => EmptyString
           end, set_Global c g' (set_Global c g v)).
Proof.
  intros Hc Hcomp Hrun Hjson.
  unfold eval. rewrite (new_context_stored _ _ Hc), Hcomp, Hrun.
  rewrite (json_stringify_of _ _ _ _ Hjson). simpl.
  destruct r; [by rewrite to_std_string_ToString|done].
Qed.




End V8_facts.

(** ** The debug channel of [_V8] *)

Section V8_debug.
Context `{E : Engine}.

(** Once [dbg_isolate_] has been assigned, [debugger_send] answers by the
    callback alone. *)
Lemma debugger_send_initialised cmd v i :
  dbg_isolate_ v = Some i ->
  debugger_send cmd v =
  Returns (match callback_ v with
           | None => (false, v)
           | Some _ => (true, set_commands (commands v ++ [c_str cmd]) v)
           end).
Proof. unfold debugger_send. intros Hi. rewrite Hi. by destruct (callback_ v). Qed.

Lemma debugger_init_dbg_isolate_ cb opq v :
  is_Some (dbg_isolate_ (debugger_init cb opq v).2).
Proof. unfold debugger_init. simpl. destruct (callback_ v); simpl; eauto. Qed.

Lemma debugger_init_twice cb opq cb' opq' v :
  (debugger_init cb' opq' (debugger_init (Some cb) opq v).2).1 = false.
Proof.
  unfold debugger_init. simpl.
  destruct (callback_ v) eqn:Hc; simpl; by rewrite ?Hc.
Qed.

Lemma debugger_stop_then_send cmd v i :
  dbg_isolate_ v = Some i ->
  debugger_send cmd (debugger_stop v) = Returns (false, debugger_stop v).
Proof. intros Hi. by rewrite (debugger_send_initialised _ _ i). Qed.

Lemma debugger_stop_silent message v :
  debugger_message_handler message (debugger_stop v) = None.
Proof. reflexivity. Qed.

Lemma new_context_debug_fields v :
  callback_ (new_context v).2 = callback_ v /\
  dbg_isolate_ (new_context v).2 = dbg_isolate_ v.
Proof. unfold new_context. by destruct (context_ v) eqn:Hc. Qed.

Lemma eval_debug_fields src v r :
  eval src v = Returns r ->
  callback_ r.2 = callback_ v /\ dbg_isolate_ r.2 = dbg_isolate_ v.
Proof. intros H. by destruct (eval_same _ _ _ H) as (_ & ? & ? & _). Qed.

Lemma call_debug_fields func args v r :
  call func args v = Returns r ->
  callback_ r.2 = callback_ v /\ dbg_isolate_ r.2 = dbg_isolate_ v.
Proof. intros H. by destruct (call_same _ _ _ _ H) as (_ & ? & ? & _). Qed.

Lemma V8_step_callback_has_isolate op v v' :
  callback_has_isolate v -> V8_step op v = Returns v' -> callback_has_isolate v'.
Proof.
  unfold callback_has_isolate. intros Hv Hstep.
  destruct op; simpl in Hstep.
  - apply bind_Returns in Hstep as [r [He Hr]]. injection Hr as <-.
    destruct (eval_debug_fields _ _ _ He) as [-> ->]. done.
  - apply bind_Returns in Hstep as [r [He Hr]]. injection Hr as <-.
    destruct (call_debug_fields _ _ _ _ He) as [-> ->]. done.
  - injection Hstep as <-. intros _. apply debugger_init_dbg_isolate_.
  - apply bind_Returns in Hstep as [[b v1] [Hs Hr]]. injection Hr as <-.
    unfold debugger_send in Hs.
    destruct (dbg_isolate_ v) eqn:Hi; [|discriminate].
    destruct (callback_ v) eqn:Hc; injection Hs as <- <-; simpl; rewrite ?Hi; eauto.
  - injection Hstep as <-. unfold debugger_process.
    destruct (message_handler v); simpl; done.
  - injection Hstep as <-. simpl. intros [? ?]. discriminate.
Qed.

Lemma V8_run_callback_has_isolate ops : forall v v',
  callback_has_isolate v -> V8_run ops v = Returns v' -> callback_has_isolate v'.
Proof.
  induction ops as [|op ops IH]; simpl; intros v v' Hv Hrun.
  - by injection Hrun as <-.
  - apply bind_Returns in Hrun as [v1 [Hs Hr]].
    eapply IH; [|exact Hr]. eapply V8_step_callback_has_isolate; eauto.
Qed.

(** On every state an instance reaches with a callback registered,
    [debugger_send] forwards the command and returns true. *)
Lemma debugger_send_registered ops v cmd :
  V8_run ops V8_ctor = Returns v -> is_Some (callback_ v) ->
  debugger_send cmd v = Returns (true, set_commands (commands v ++ [c_str cmd]) v).
Proof.
  intros Hrun Hcb.
  assert (Hinv : callback_has_isolate v).
  { eapply V8_run_callback_has_isolate; [|exact Hrun]. intros [? ?]. discriminate. }
  destruct (Hinv Hcb) as [i Hi]. rewrite (debugger_send_initialised _ _ i Hi).
  destruct Hcb as [cb Hcb]. by rewrite Hcb.
Qed.

Lemma c_str_no_NUL s : has_NUL s = false -> c_str s = s.
Proof.
  induction s as [|a s IH]; simpl; [done|].
  destruct (Ascii.eqb a Ascii.zero); [done|]. intros Hs. by rewrite IH.
Qed.

(** C4: [debugger_send] is claimed to return false for every instance
    state with no callback registered.  On an instance on which
    [debugger_init] was never called the member [dbg_isolate_] has never
    been assigned, and [debugger_send] enters it before it tests
    [callback_]: for every command the call has no defined result. *)
Theorem debugger_send_before_init cmd :
  callback_ V8_ctor = None /\
  dbg_isolate_ V8_ctor = None /\
  debugger_send cmd V8_ctor = Undefined uninit_isolate.
Proof. done. Qed.

End V8_debug.

(** ** [eval] and [call] *)

Section V8_eval.
Context `{E : Engine}.


(** What [eval] returns, path by path. *)
Lemma eval_returns src v :
  let '(context, v0) := new_context v in
  match Compile (new_string src) with
  | Threw exception =>
      exists v', eval src v = Returns (to_std_string (Some exception), v')
  | Just script =>
      match Run script (Global context v0) with
      | (Threw exception, _) =>
          exists v', eval src v = Returns (to_std_string (Some exception), v')
      | (Just result, global) =>
          forall r global', stringify_of result global r global' ->
          exists v',
            eval src v =
            Returns (match r with
                     | Just json => to_std_string (Some json)
                     | Threw _ => EmptyString
                     end, v')
      end
  end.
Proof.
  unfold eval. destruct (new_context v) as [context v0].
  destruct (Compile _) as [script|e]; [|eauto].
  destruct (Run _ _) as [[result|e] global]; [|eauto].
  intros r global' Hs. rewrite (json_stringify_of _ _ _ _ Hs). simpl.
  destruct r; [rewrite to_std_string_ToString|]; eauto.
Qed.

(** C6: [eval] is claimed to return the exception text whenever a
    runtime exception happens, and the encoding of the result otherwise.
    When the script itself ran and [JSON.stringify] throws on its result
    (a [toJSON] that throws, say), [eval] returns the empty string, whatever
    the exception: neither its text nor an encoding. *)
Theorem eval_encoding_throws src v c script result g exception g'
    (Hc : context_ v = Some c)
    (Hcompile : Compile (new_string src) = Just script)
    (Hrun : Run script (Global c v) = (Just result, g))
    (Hthrow : stringify_of result g (Threw exception) g') :
  exists v', eval src v = Returns (EmptyString, v').
Proof.
  rewrite (eval_ran _ _ _ _ _ _ _ _ Hc Hcompile Hrun Hthrow). eauto.
Qed.

(** When the script left no object under the name [JSON], [eval] returns
    nothing: the encoder is looked up through an empty handle. *)
Lemma eval_no_JSON src v c script result g j g1 :
  context_ v = Some c ->
  Compile (new_string src) = Just script ->
  Run script (Global c v) = (Just result, g) ->
  Get (VString "JSON") g = (Just j, g1) -> ToObject j = None ->
  eval src v = Undefined empty_Local.
Proof.
  intros Hc Hcomp Hrun Hj Ho.
  unfold eval. rewrite (new_context_stored _ _ Hc), Hcomp, Hrun.
  by rewrite (json_stringify_no_JSON _ _ _ _ Hj Ho).
Qed.

(** C7, amended: [call] reads [func] as one property name of the global
    object.  When that read throws, the exception text is returned; when
    it yields anything but a function (no such property, as for a dotted
    path, or a value that is not callable) the result is the message naming
    [func], whatever [args] is.  For a function, [call] reads its [apply]
    property and decodes [args] with the [JSON.parse] it finds: the message
    naming [args] when the decoding throws or gives no array; else it calls
    what it read as [apply], with the function as receiver and the function
    and the array as arguments, and returns the exception text when that
    call throws, and otherwise the text of what the [JSON.stringify] it
    finds returns for the result. *)
Theorem call_text func args v :
  let '(context, v0) := new_context v in
  let '(r, global) := Get (new_string func) (Global context v0) in
  (Global context v0 !! c_str func = None ->
   exists v',
     call func args v = Returns ("TypeError: '" +:+ func +:+ "' is not a function", v')) /\
  match r with
  | Threw exception =>
      exists v', call func args v = Returns (to_std_string (Some exception), v')
  | Just f =>
      if IsFunction f then
        forall apply global0 decoded global1,
          Object_Get f (VString "apply") global = (Just apply, global0) ->
          parse_of (new_string args) global0 decoded global1 ->
          match decoded with
          | Just (VArray elems) =>
              match Call apply f [f; VArray elems] global1 with
              | (Threw exception, _) =>
                  exists v',
                    call func args v = Returns (to_std_string (Some exception), v')
              | (Just result, global2) =>
                  forall json global3,
                    stringify_of result global2 (Just json) global3 ->
                    exists v',
                      call func args v = Returns (to_std_string (Some json), v')
              end
          | _ =>
              exists v',
                call func args v
                = Returns ("TypeError: '" +:+ args +:+ "' is not an array", v')
          end
      else
        exists v',
          call func args v
          = Returns ("TypeError: '" +:+ func +:+ "' is not a function", v')
  end.
Proof.
  unfold call. destruct (new_context v) as [context v0].
  destruct (Get _ _) as [r global] eqn:HGet. split.
  - intros Hnone. unfold Get, new_string in HGet. rewrite Hnone in HGet.
    injection HGet as <- <-. simpl. eauto.
  - destruct r as [f|e]; [|eauto].
    destruct (IsFunction f); simpl; [|eauto].
    intros apply global0 decoded global1 Hap Hparse.
    change (new_string "apply") with (VString "apply"). rewrite Hap. simpl.
    rewrite (json_parse_of _ _ _ _ Hparse). simpl.
    destruct decoded as [arr|e]; [|eauto].
    destruct arr; simpl; eauto.
    destruct (Call _ _ _ _) as [[result|e] global2]; [|eauto].
    intros json global3 Hs. rewrite (json_stringify_of _ _ _ _ Hs). simpl.
    rewrite to_std_string_ToString. eauto.
Qed.

End V8_eval.




(** Without the handle stored by the constructor nothing persists: every
    call then runs in a context of its own. *)
Example no_stored_context_no_persistence :
  exists v1 v2,
    eval "x = 1" (set_context_ None V8_ctor) = Returns ("1", v1) /\
    eval "x + 1" v1 = Returns ("ReferenceError: x is not defined", v2).
Proof. eexists _, _. split; reflexivity. Qed.

(** The script whose result has a [toJSON] that throws ['boom']: it runs
    to completion and the encoder throws. *)
Lemma eval_encoding_throws_witness :
  stringify_of (VObject [("toJSON", MiniJS.f_boom)]) builtins
    (Threw (VString "boom")) builtins /\
  exists v',
    eval "({toJSON: function () { throw 'boom' }})" V8_ctor = Returns (EmptyString, v').
Proof.
  assert (Hs : stringify_of (VObject [("toJSON", MiniJS.f_boom)]) builtins
                 (Threw (VString "boom")) builtins).
  { exists MiniJS.JSON, MiniJS.JSON, MiniJS.f_stringify, builtins, builtins. done. }
  split; [exact Hs|].
  apply (@eval_encoding_throws mini_js _ V8_ctor 0
           (MiniJS.s_object (VObject [("toJSON", MiniJS.f_boom)]))
           (VObject [("toJSON", MiniJS.f_boom)]) builtins (VString "boom") builtins);
    [reflexivity|reflexivity|reflexivity|exact Hs].
Defined.

(** A script that removes [JSON]: it has run when the encoder is looked
    up, and neither this [eval] nor a later one returns. *)
Example eval_JSON_undefined :
  eval "JSON = undefined; 1" V8_ctor = Undefined empty_Local.
Proof. reflexivity. Qed.

Example call_doesNotExist :
  exists v,
    call "doesNotExist" "[]" V8_ctor
    = Returns ("TypeError: 'doesNotExist' is not a function", v).
Proof. eexists. reflexivity. Qed.

Example call_isNaN_not_an_array :
  exists v,
    call "isNaN" "not-an-array" V8_ctor
    = Returns ("TypeError: 'not-an-array' is not an array", v).
Proof. eexists. reflexivity. Qed.

Example call_isNaN_numbers :
  exists v, call "isNaN" "[1,2]" V8_ctor = Returns ("false", v).
Proof. eexists. reflexivity. Qed.

(** What is called is the function's [apply] property: a function that
    returns 1 and carries an [apply] of its own that returns 42. *)
Example call_own_apply :
  exists v1 v2,
    eval "f = function () { return 1 }; f.apply = function () { return 42 }; 1" V8_ctor
    = Returns ("1", v1) /\
    call "f" "[]" v1 = Returns ("42", v2).
Proof. eexists _, _. split; reflexivity. Qed.

(** C7, as stated, fails: the global object has a property [Math] and none
    called [Math.max], so the call with [Math.max] and a text that is not an
    array is answered with the message naming [Math.max], not with the one
    naming the argument text. *)
Lemma call_Math_max_not_an_array :
  builtins !! "Math" = Some (DataProperty (VObject [("max", MiniJS.f_max)])) /\
  builtins !! "Math.max" = None /\
  (exists v',
     call "Math.max" "not-an-array" V8_ctor
     = Returns ("TypeError: 'Math.max' is not a function", v')) /\
  ~ call_example_stated.
Proof.
  split; [reflexivity|]. split; [reflexivity|].
  assert (Hcall : exists v',
             call "Math.max" "not-an-array" V8_ctor
             = Returns ("TypeError: 'Math.max' is not a function", v')).
  { eexists. reflexivity. }
  split; [exact Hcall|].
  destruct Hcall as [v1 H1]. intros [v2 H2].
  rewrite H1 in H2. discriminate H2.
Qed.

(** ** The listening port *)

Section Port.

Lemma get_port_fresh v8 : get_port (DbgSrv_ctor v8) = 0%Z.
Proof. reflexivity. Qed.

Lemma start_0_port os db :
  (start 0 os db).1 = true -> get_port (start 0 os db).2 = sin_port os.
Proof.
  unfold start. simpl.
  destruct (uv_tcp_bind os =? 0)%Z; simpl; [|done].
  destruct (uv_tcp_getsockname os =? 0)%Z; simpl; [|done].
  destruct (uv_listen os =? 0)%Z; simpl; [|done].
  by destruct (debugger_init _ _ _).
Qed.

Lemma start_bind_failure port os db :
  uv_tcp_bind os <> 0%Z ->
  (start port os db).1 = false /\ get_port (start port os db).2 = get_port db.
Proof.
  intros Hb. unfold start. apply Z.eqb_neq in Hb. by rewrite Hb.
Qed.

(** When the listen fails the port recorded before it stays. *)
Lemma start_listen_failure port os db :
  uv_tcp_bind os = 0%Z -> port <> 0%Z -> uv_listen os <> 0%Z ->
  (start port os db).1 = false /\ get_port (start port os db).2 = port /\
  dbgsrv_serv_ (start port os db).2 = tcp_bound /\
  status_ (start port os db).2 = status_ db.
Proof.
  intros Hb Hp Hl. unfold start. apply Z.eqb_neq in Hp, Hl.
  by rewrite Hb, Hp, Hl.
Qed.

(** C8: [get_port] is claimed to return 0 whenever [start] failed.  When
    the bind succeeds and the listen fails, [start (5000)] on a fresh
    bridge returns false and leaves the bridge offline with a socket that
    does not listen, and [get_port] returns 5000: the port was recorded
    before the listen and is not reset. *)
Theorem get_port_after_failed_listen v8 :
  get_port (DbgSrv_ctor v8) = 0%Z /\
  (start 5000 os_listen_fails (DbgSrv_ctor v8)).1 = false /\
  status_ (start 5000 os_listen_fails (DbgSrv_ctor v8)).2 = dbgsrv_offline /\
  dbgsrv_serv_ (start 5000 os_listen_fails (DbgSrv_ctor v8)).2 = tcp_bound /\
  get_port (start 5000 os_listen_fails (DbgSrv_ctor v8)).2 = 5000%Z.
Proof. done. Qed.

Example get_port_after_start_0 v8 :
  (start 0 os_ok (DbgSrv_ctor v8)).1 = true /\
  get_port (start 0 os_ok (DbgSrv_ctor v8)).2 = 49152%Z.
Proof. unfold start. simpl. by destruct (debugger_init _ _ _). Qed.

Example get_port_after_failed_bind v8 :
  (start 5000 os_bind_fails (DbgSrv_ctor v8)).1 = false /\
  get_port (start 5000 os_bind_fails (DbgSrv_ctor v8)).2 = 0%Z.
Proof. done. Qed.

End Port.

(** ** Clients *)

Section Clients.

(** [accept_] does not look at [status_]. *)
Lemma accept__any_status peer db :
  dbgsrv_clnt_ (accept_ 0 (Some peer) db) = tcp_reading peer /\
  dbgsrv_send_ (accept_ 0 (Some peer) db) = async_idle /\
  status_ (accept_ 0 (Some peer) db) = dbgsrv_connected /\
  effects (accept_ 0 (Some peer) db) = effects db ++ [fx_uv_async_init a_dbgsrv_send_].
Proof. done. Qed.

Lemma accept__from_started peer db :
  status_ db = dbgsrv_started ->
  status_ (accept_ 0 (Some peer) db) = dbgsrv_connected /\
  dbgsrv_clnt_ (accept_ 0 (Some peer) db) = tcp_reading peer.
Proof. done. Qed.

Lemma accept__error status db : (status < 0)%Z -> accept_ status None db = db.
Proof. intros Hs. unfold accept_. apply Z.ltb_lt in Hs. by rewrite Hs. Qed.

Lemma start_ok_effects v8 :
  effects (start 0 os_ok (DbgSrv_ctor v8)).2 =
  effects (DbgSrv_ctor v8)
    ++ [fx_uv_async_init a_dbgsrv_stop_; fx_uv_thread_create t_dbgsrv_thread_].
Proof. unfold start. simpl. by destruct (debugger_init _ _ _). Qed.

(** C2: a connection event is claimed to attach no further client while
    the bridge is connected.  [accept_] has no test of [status_]: on a
    bridge that is connected to peer 1 a second connection event
    re-initialises the client handle, accepts peer 2 into it and starts
    reading from it, and the handle of peer 1 is never closed. *)
Theorem accept__while_connected v8 :
  let db1 := accept_ 0 (Some 1) (start 0 os_ok (DbgSrv_ctor v8)).2 in
  let db2 := accept_ 0 (Some 2) db1 in
  (status_ db1 = dbgsrv_connected /\ dbgsrv_clnt_ db1 = tcp_reading 1) /\
  (status_ db2 = dbgsrv_connected /\ dbgsrv_clnt_ db2 = tcp_reading 2) /\
  fx_uv_close_tcp s_dbgsrv_clnt_ ∉ effects db2.
Proof.
  intros db1 db2. split; [done|]. split; [done|].
  unfold db2, db1.
  rewrite !(proj2 (proj2 (proj2 (accept__any_status _ _)))).
  rewrite start_ok_effects. simpl.
  intros Hin. repeat (apply elem_of_cons in Hin as [Hin|Hin]; [discriminate|]).
  by apply elem_of_nil in Hin.
Qed.

(** C9: a negative read result closes the send-wake handle and the
    client handle and sets the state to started; the listening socket and
    the stop handle are not touched, and the next connection event
    attaches its client. *)
Theorem recv_from_socket__read_error nread base db (Hread : (nread < 0)%Z) :
  exists db',
    recv_from_socket_ nread base db = Returns db' /\
    dbgsrv_send_ db' = async_closed /\
    dbgsrv_clnt_ db' = tcp_closed /\
    status_ db' = dbgsrv_started /\
    dbgsrv_serv_ db' = dbgsrv_serv_ db /\
    dbgsrv_stop_ db' = dbgsrv_stop_ db /\
    effects db' =
      effects db ++ [fx_uv_close_async a_dbgsrv_send_; fx_uv_close_tcp s_dbgsrv_clnt_] /\
    forall peer,
      status_ (accept_ 0 (Some peer) db') = dbgsrv_connected /\
      dbgsrv_clnt_ (accept_ 0 (Some peer) db') = tcp_reading peer /\
      dbgsrv_serv_ (accept_ 0 (Some peer) db') = dbgsrv_serv_ db.
Proof.
  unfold recv_from_socket_.
  assert ((nread =? 0)%Z = false) as -> by (apply Z.eqb_neq; lia).
  assert ((nread <? 0)%Z = true) as -> by (apply Z.ltb_lt; lia).
  eexists. split; [reflexivity|]. simpl. rewrite <- app_assoc. done.
Qed.

End Clients.

Example connected_bridge_state :
  status_ connected_bridge = dbgsrv_connected /\
  dbgsrv_serv_ connected_bridge = tcp_listening /\
  dbgsrv_clnt_ connected_bridge = tcp_reading 1 /\
  get_port connected_bridge = 49152%Z /\
  msg_queue_ connected_bridge = [].
Proof. vm_compute. tauto. Qed.

Lemma recv_from_socket__read_error_witness :
  exists db',
    recv_from_socket_ (-4095) EmptyString connected_bridge = Returns db' /\
    dbgsrv_send_ db' = async_closed /\
    dbgsrv_clnt_ db' = tcp_closed /\
    status_ db' = dbgsrv_started /\
    dbgsrv_serv_ db' = tcp_listening.
Proof.
  destruct (recv_from_socket__read_error (-4095) EmptyString connected_bridge)
    as (db' & H1 & H2 & H3 & H4 & H5 & _); [lia|].
  exists db'. rewrite H5. done.
Defined.

(** ** Construction and destruction *)

Section Destruction.
Context `{E : Engine}.

Lemma DbgSrv_dtor_stmts db : DbgSrv_dtor db = run_stmts dtor_stmts [] db.
Proof.
  unfold DbgSrv_dtor, dtor_stmts. simpl.
  repeat (match goal with
          | |- context [mbind _ ?m] => destruct m; simpl; try done
          end).
Qed.

(** The constructor initialises the processing loop only. *)
Lemma DbgSrv_ctor_handles v8 :
  dbgsrv_stop_ (DbgSrv_ctor v8) = async_uninit /\
  dbgsrv_send_ (DbgSrv_ctor v8) = async_uninit /\
  dbgsrv_thread_ (DbgSrv_ctor v8) = thread_uninit /\
  dbgproc_proc_ (DbgSrv_ctor v8) = async_idle /\
  dbgproc_stop_ (DbgSrv_ctor v8) = async_idle /\
  dbgproc_thread_ (DbgSrv_ctor v8) = thread_running.
Proof. done. Qed.

(** The destructor on a bridge whose stop handle was never initialised. *)
Lemma DbgSrv_dtor_uninit db :
  dbgsrv_stop_ db = async_uninit ->
  DbgSrv_dtor db = Undefined (uninit_async a_dbgsrv_stop_).
Proof. intros Hs. unfold DbgSrv_dtor, uv_async_send. simpl. by rewrite Hs. Qed.

Lemma uv_thread_join_uninit db :
  dbgsrv_thread_ db = thread_uninit ->
  uv_thread_join t_dbgsrv_thread_ db = Undefined (uninit_thread t_dbgsrv_thread_).
Proof. intros Ht. unfold uv_thread_join. simpl. by rewrite Ht. Qed.

(** [start] initialises the stop handle and creates the network thread
    exactly when it returns true. *)
Lemma start_handles port os db :
  let r := start port os db in
  if r.1 then
    dbgsrv_stop_ r.2 = async_idle /\ dbgsrv_thread_ r.2 = thread_running /\
    dbgsrv_serv_ r.2 = tcp_listening /\ status_ r.2 = dbgsrv_started
  else
    dbgsrv_stop_ r.2 = dbgsrv_stop_ db /\ dbgsrv_thread_ r.2 = dbgsrv_thread_ db /\
    status_ r.2 = status_ db.
Proof.
  unfold start. simpl.
  destruct (uv_tcp_bind os =? 0)%Z; simpl; [|done].
  destruct (port =? 0)%Z; simpl.
  - destruct (uv_tcp_getsockname os =? 0)%Z; simpl; [|done].
    destruct (uv_listen os =? 0)%Z; simpl; [|done].
    by destruct (debugger_init _ _ _).
  - destruct (uv_listen os =? 0)%Z; simpl; [|done].
    by destruct (debugger_init _ _ _).
Qed.

End Destruction.

(** ** The message queue *)

Section Queue.

Lemma rev_back_pop_back (q : list string) :
  empty q = false -> rev q = back q :: rev (pop_back q).
Proof.
  intros Hq. assert (Hne : q <> []) by (by destruct q).
  unfold back, pop_back.
  rewrite (app_removelast_last "" Hne) at 1.
  rewrite rev_app_distr. reflexivity.
Qed.

(** [send_to_socket_] in closed form: one write per queued message, from
    the back of the list to its front, and an empty queue. *)
Lemma send_to_socket__closed_form db :
  send_to_socket_ db =
  set_msg_queue_ []
    (set_effects
       (effects db ++ map (fx_uv_write (dbgsrv_clnt_ db)) (rev (msg_queue_ db))) db).
Proof.
  funelim (send_to_socket_ db).
  - destruct db as [? ? q ? ? ? ? ? ? ? ? ? ? ? fx]. simpl in *.
    destruct q; [|discriminate]. simpl. by rewrite app_nil_r.
  - match goal with
    | IH : send_to_socket_ (send_one _) = set_msg_queue_ _ _ |- _ => rewrite IH
    end.
    destruct db as [? ? q ? ? ? ? ? ? ? ? ? ? ? fx]. simpl in *.
    rewrite (rev_back_pop_back q Hq). simpl. by rewrite <- app_assoc.
Qed.

End Queue.

(** ** The relay of outbound messages *)

Section Relay.
Context `{E : Engine}.

Lemma written_app fx1 fx2 : written (fx1 ++ fx2) = written fx1 ++ written fx2.
Proof. unfold written. apply omap_app. Qed.

Lemma written_uv_write stream q : written (map (fx_uv_write stream) q) = q.
Proof. unfold written. induction q as [|x q IH]; simpl; [done|]. by f_equal. Qed.

Lemma send_to_socket__writes db :
  msg_queue_ (send_to_socket_ db) = [] /\
  effects (send_to_socket_ db) =
    effects db ++ map (fx_uv_write (dbgsrv_clnt_ db)) (rev (msg_queue_ db)) /\
  writes (send_to_socket_ db) = writes db ++ rev (msg_queue_ db) /\
  v8_ (send_to_socket_ db) = v8_ db /\
  dbgsrv_send_ (send_to_socket_ db) = dbgsrv_send_ db.
Proof.
  rewrite send_to_socket__closed_form. unfold writes. simpl.
  by rewrite written_app, written_uv_write.
Qed.

Lemma engine_message_relaying message db :
  relaying db ->
  exists db',
    engine_message message db = Returns db' /\
    relaying db' /\
    msg_queue_ db' = message :: msg_queue_ db /\
    writes db' = writes db /\
    (async_active (dbgsrv_send_ db) = true -> dbgsrv_send_ db' = async_pending).
Proof.
  intros (Hh & Hcb & Hopq & Hsend).
  unfold engine_message, debugger_message_handler. rewrite Hh, Hcb, Hopq.
  unfold invoke, recv_from_debugger_, uv_async_send. simpl.
  destruct (dbgsrv_send_ db) eqn:Hs; [done| | |];
    (eexists; split; [reflexivity|]);
    unfold relaying, writes; simpl; rewrite ?Hs, ?written_app; simpl;
    rewrite ?app_nil_r; done.
Qed.

Lemma send_wake_relaying db :
  relaying db ->
  exists db',
    dispatch a_dbgsrv_send_ db = Returns db' /\
    relaying db' /\
    writes db' ++ rev (msg_queue_ db') = writes db ++ rev (msg_queue_ db) /\
    (drained db -> drained db') /\
    (dbgsrv_send_ db = async_pending ->
     msg_queue_ db' = [] /\
     effects db' =
       effects db ++ map (fx_uv_write (dbgsrv_clnt_ db)) (rev (msg_queue_ db))).
Proof.
  intros (Hh & Hcb & Hopq & Hsend). unfold dispatch. simpl.
  destruct (dbgsrv_send_ db) eqn:Hs; try done.
  - eexists. split; [reflexivity|]. unfold relaying, drained. rewrite Hs. done.
  - eexists. split; [reflexivity|].
    destruct (send_to_socket__writes (set_async a_dbgsrv_send_ async_idle db))
      as (Hq & Hfx & Hw & Hv & Hsd).
    unfold relaying, drained. rewrite Hq, Hfx, Hw, Hv, Hsd. simpl.
    rewrite app_nil_r. done.
  - eexists. split; [reflexivity|]. unfold relaying, drained. rewrite Hs. done.
Qed.

Lemma relay_run_fifo evs : forall db,
  relaying db ->
  exists db',
    relay_run evs db = Returns db' /\
    relaying db' /\
    writes db' ++ rev (msg_queue_ db') =
      writes db ++ rev (msg_queue_ db) ++ produced evs /\
    (drained db -> drained db').
Proof.
  induction evs as [|ev evs IH]; intros db Hrel.
  - exists db. simpl. by rewrite app_nil_r.
  - destruct ev as [m|]; simpl.
    + destruct (engine_message_relaying m db Hrel) as (db1 & -> & Hrel1 & Hq & Hw & Hp).
      destruct (IH db1 Hrel1) as (db' & Hrun & Hrel' & Hfifo & Hdr).
      exists db'. simpl. split; [done|]. split; [done|]. split.
      * rewrite Hfifo, Hq, Hw. simpl. by rewrite <- !app_assoc.
      * intros [Ha Hi]. apply Hdr. unfold drained. rewrite (Hp Ha). done.
    + destruct (send_wake_relaying db Hrel) as (db1 & -> & Hrel1 & Hw & Hdr1 & _).
      destruct (IH db1 Hrel1) as (db' & Hrun & Hrel' & Hfifo & Hdr).
      exists db'. simpl. split; [done|]. split; [done|]. split.
      * by rewrite Hfifo, app_assoc, Hw, <- app_assoc.
      * intros Hd. by apply Hdr, Hdr1.
Qed.

Lemma relay_run_app evs1 evs2 db :
  relay_run (evs1 ++ evs2) db = db1 ← relay_run evs1 db; relay_run evs2 db1.
Proof.
  revert db. induction evs1 as [|ev evs1 IH]; intros db; simpl; [done|].
  destruct (relay_step ev db); simpl; [apply IH|done|done].
Qed.

(** C1: every firing of the send-wake handler empties the queue and
    issues one write per queued message, oldest first; and along any run
    of engine messages and firings, the payloads written so far followed
    by the queue from back to front are the messages in the order the
    engine produced them, so that on a connected bridge one more firing
    after the last message leaves exactly the produced sequence written
    to the socket. *)
Theorem message_relay_fifo db evs (Hrel : relaying db) :
  (forall d,
      msg_queue_ (send_to_socket_ d) = [] /\
      effects (send_to_socket_ d) =
        effects d ++ map (fx_uv_write (dbgsrv_clnt_ d)) (rev (msg_queue_ d))) /\
  (exists db',
      relay_run evs db = Returns db' /\
      writes db' ++ rev (msg_queue_ db') =
        writes db ++ rev (msg_queue_ db) ++ produced evs) /\
  (async_active (dbgsrv_send_ db) = true -> msg_queue_ db = [] ->
   exists db',
     relay_run (evs ++ [send_wake]) db = Returns db' /\
     msg_queue_ db' = [] /\
     writes db' = writes db ++ produced evs).
Proof.
  split; [|split].
  - intros d. destruct (send_to_socket__writes d) as (? & ? & _). done.
  - destruct (relay_run_fifo evs db Hrel) as (db' & Hrun & _ & Hfifo & _). eauto.
  - intros Ha Hq.
    destruct (relay_run_fifo evs db Hrel) as (db1 & Hrun & Hrel1 & Hfifo & Hdr).
    destruct (send_wake_relaying db1 Hrel1) as (db' & Hwake & _ & Hw & Hdr' & _).
    exists db'. rewrite relay_run_app, Hrun. simpl. rewrite Hwake.
    assert (Hd' : drained db') by (apply Hdr', Hdr; split; done).
    assert (Hq' : msg_queue_ db' = []).
    { destruct Hd' as [Ha' Hi']. apply Hi'.
      unfold dispatch in Hwake. simpl in Hwake.
      destruct (dbgsrv_send_ db1) eqn:Hs1.
      - destruct Hrel1 as (_ & _ & _ & Hne). done.
      - injection Hwake as <-. done.
      - injection Hwake as <-.
        by destruct (send_to_socket__writes (set_async a_dbgsrv_send_ async_idle db1))
          as (_ & _ & _ & _ & ->).
      - injection Hwake as <-. rewrite Hs1 in Ha'. done. }
    split; [done|]. split; [done|].
    rewrite Hq', app_nil_r in Hw. rewrite Hw, Hfifo, Hq. done.
Qed.

End Relay.

Lemma message_relay_fifo_witness :
  exists db',
    relay_run ([engine_reports "a"; engine_reports "b"; send_wake; engine_reports "c"]
                 ++ [send_wake]) connected_bridge = Returns db' /\
    msg_queue_ db' = [] /\
    writes db' = ["a"; "b"; "c"].
Proof.
  assert (Hrel : relaying connected_bridge) by (repeat split; discriminate).
  destruct (message_relay_fifo connected_bridge
              [engine_reports "a"; engine_reports "b"; send_wake; engine_reports "c"] Hrel)
    as (_ & _ & Hfinal).
  apply Hfinal; reflexivity.
Defined.

(** ** The destructor on a running bridge *)

Section Shutdown.
Context `{E : Engine}.

Lemma engine_messages_silent messages db :
  message_handler (v8_ db) = false -> engine_messages messages db = Returns db.
Proof.
  intros Hs. induction messages as [|m messages IH]; simpl; [done|].
  unfold engine_message. rewrite Hs. simpl. exact IH.
Qed.

Lemma uv_async_send_v8_ h db db' :
  uv_async_send h db = Returns db' -> v8_ db' = v8_ db.
Proof.
  unfold uv_async_send.
  destruct (async_of h db); intros Hr; try discriminate; by injection Hr as <-.
Qed.

Lemma shutdown__v8_ db : v8_ (shutdown_ db) = v8_ db.
Proof. unfold shutdown_. repeat case_decide; done. Qed.

Lemma dispatch_silent h db db' :
  silent db -> dispatch h db = Returns db' -> v8_ db' = v8_ db.
Proof.
  unfold silent, dispatch. intros Hs.
  destruct (async_of h db); try (intros Hr; by injection Hr as <-).
  destruct h.
  - intros Hr. injection Hr as <-. by rewrite send_to_socket__closed_form.
  - intros Hr. injection Hr as <-. by rewrite shutdown__v8_.
  - unfold dbgproc_do_proc_, debugger_process. simpl. rewrite Hs. simpl.
    intros Hr. by injection Hr as <-.
  - intros Hr. by injection Hr as <-.
Qed.

Lemma uv_thread_join_silent t db db' :
  silent db -> uv_thread_join t db = Returns db' -> v8_ db' = v8_ db.
Proof.
  unfold uv_thread_join. intros Hs.
  destruct (thread_of t db); try discriminate.
  intros Hr. apply bind_Returns in Hr as (db1 & Hfin & Hr).
  assert (Hv : v8_ db1 = v8_ db).
  { destruct t; simpl in Hfin; apply bind_Returns in Hfin as (db0 & H0 & H1).
    - rewrite (dispatch_silent _ _ _ (eq_trans (f_equal message_handler
                (dispatch_silent _ _ _ Hs H0)) Hs) H1).
      exact (dispatch_silent _ _ _ Hs H0).
    - rewrite (dispatch_silent _ _ _ (eq_trans (f_equal message_handler
                (dispatch_silent _ _ _ Hs H0)) Hs) H1).
      exact (dispatch_silent _ _ _ Hs H0). }
  destruct (loop_alive _ db1); [discriminate|]. by injection Hr as <-.
Qed.

Lemma run_stmts_cons stmt stmts between db :
  run_stmts (stmt :: stmts) between db =
  (d ← stmt db; d ← engine_messages (hd [] between) d; run_stmts stmts (tl between) d).
Proof. reflexivity. Qed.

Lemma run_stmts_silent stmts :
  Forall (fun stmt : DbgSrv -> Outcome DbgSrv =>
            forall d d', silent d -> stmt d = Returns d' -> silent d') stmts ->
  forall between db,
    silent db -> run_stmts stmts between db = run_stmts stmts [] db.
Proof.
  induction 1 as [|stmt stmts Hstmt _ IH]; intros between db Hs; simpl; [done|].
  destruct (stmt db) as [d| |] eqn:Hd; simpl; [|done|done].
  assert (Hs' : silent d) by (eapply Hstmt; eauto).
  rewrite (engine_messages_silent _ d Hs'). simpl.
  rewrite (IH (tl between) d Hs'). symmetry. apply (IH [] d Hs').
Qed.

(** Whatever the engine reports once the first statement of the
    destructor has run, the destructor runs as if nothing was reported:
    no callback is invoked. *)
Lemma DbgSrv_dtor_between db between :
  run_stmts dtor_stmts between db = DbgSrv_dtor db.
Proof.
  rewrite DbgSrv_dtor_stmts. unfold dtor_stmts.
  rewrite (run_stmts_cons _ _ between), (run_stmts_cons _ _ []).
  cbv beta. rewrite !Returns_bind.
  rewrite !engine_messages_silent by reflexivity. rewrite !Returns_bind.
  apply run_stmts_silent; [|reflexivity].
  unfold silent.
  repeat apply Forall_cons_2; try apply Forall_nil_2; intros d d' Hs Hr.
  - by rewrite (uv_async_send_v8_ _ _ _ Hr).
  - by rewrite (uv_thread_join_silent _ _ _ Hs Hr).
  - by injection Hr as <-.
  - by rewrite (uv_async_send_v8_ _ _ _ Hr).
  - by rewrite (uv_thread_join_silent _ _ _ Hs Hr).
  - by injection Hr as <-.
Qed.

Lemma DbgSrv_dtor_running db :
  bridge_running db -> DbgSrv_dtor db = Returns (dtor_result db).
Proof.
  intros (Ht1 & Ht2 & Hserv & Hstop & Hproc & Hpstop & Hsl & Hpl & Hst).
  destruct db as [v st q port serv clnt send stop t1 sl proc pstop t2 pl fx].
  simpl in *. subst t1 t2 serv sl pl.
  destruct st; [done| |].
  - destruct Hst as [Hclnt Hsend].
    destruct stop; try discriminate; destruct proc; try discriminate;
      destruct pstop; try discriminate; destruct send; try discriminate;
      destruct clnt; try discriminate; vm_compute; reflexivity.
  - destruct stop; try discriminate; destruct proc; try discriminate;
      destruct pstop; try discriminate; vm_compute; reflexivity.
Qed.

Lemma dtor_result_fields db :
  status_ db <> dbgsrv_offline ->
  effects (dtor_result db) = effects db ++ dtor_effects (status_ db) /\
  v8_ (dtor_result db) = debugger_stop (v8_ db) /\
  msg_queue_ (dtor_result db) = msg_queue_ db /\
  status_ (dtor_result db) = dbgsrv_offline /\
  dbgsrv_thread_ (dtor_result db) = thread_joined /\
  dbgproc_thread_ (dtor_result db) = thread_joined.
Proof.
  destruct db as [v st q port serv clnt send stop t1 sl proc pstop t2 pl fx].
  simpl. intros Hst. unfold dtor_result, dtor_effects, shutdown_. simpl.
  destruct st; [done| |]; simpl; rewrite <- ?app_assoc; done.
Qed.

Lemma start_running v8 port os :
  (start port os (DbgSrv_ctor v8)).1 = true ->
  bridge_running (start port os (DbgSrv_ctor v8)).2.
Proof.
  unfold start, bridge_running.
  destruct v8 as [iso dbg ctx cb opq mh cmds]; destruct cb;
    destruct (uv_tcp_bind os =? 0)%Z; destruct (port =? 0)%Z;
    destruct (uv_tcp_getsockname os =? 0)%Z; destruct (uv_listen os =? 0)%Z;
    vm_compute; intros; try discriminate; tauto.
Qed.

Lemma accept__running peer db :
  bridge_running db -> status_ db = dbgsrv_started ->
  bridge_running (accept_ 0 (Some peer) db).
Proof.
  unfold bridge_running.
  destruct db as [v st q port serv clnt send stop t1 sl proc pstop t2 pl fx].
  simpl. intros (? & ? & ? & ? & ? & ? & ? & ? & Hst) ->. destruct Hst as [-> ->].
  simpl. tauto.
Qed.

(** C3: on a running bridge the destructor returns, and the calls it
    makes are, in this order: [debugger_stop]; the signal to the network
    loop's stop handle, the closing of that loop's handles and the join of
    its thread; then the signal to the processing loop's stop handle, the
    closing of its handles and the join of its thread.  No callback is
    invoked on the way and the queue is left as it was, whatever messages
    the engine reports between the statements once [debugger_stop] has
    run; afterwards no message reaches a callback. *)
Theorem DbgSrv_dtor_sequence db between (Hrun : bridge_running db) :
  exists db',
    DbgSrv_dtor db = Returns db' /\
    run_stmts dtor_stmts between db = Returns db' /\
    effects db' = effects db ++ dtor_effects (status_ db) /\
    msg_queue_ db' = msg_queue_ db /\
    callback_ (v8_ db') = None /\
    (forall message, engine_message message db' = Returns db') /\
    status_ db' = dbgsrv_offline /\
    dbgsrv_thread_ db' = thread_joined /\
    dbgproc_thread_ db' = thread_joined.
Proof.
  exists (dtor_result db).
  assert (Hst : status_ db <> dbgsrv_offline).
  { destruct Hrun as (_ & _ & _ & _ & _ & _ & _ & _ & Hst). by destruct (status_ db). }
  destruct (dtor_result_fields db Hst) as (Hfx & Hv & Hq & Hs & Ht1 & Ht2).
  split; [by apply DbgSrv_dtor_running|].
  split; [rewrite DbgSrv_dtor_between; by apply DbgSrv_dtor_running|].
  split; [done|]. split; [done|]. split; [by rewrite Hv|].
  split; [|done].
  intros message. unfold engine_message. by rewrite Hv.
Qed.

(** C10: the constructor initialises the handles and the thread of the
    processing loop only; the stop handle and the thread of the network
    loop are initialised by a [start] that returns true and by nothing
    else.  The destructor signals that handle and joins that thread
    without a test: on a bridge that was never started, and on one whose
    [start] returned false, it uses a handle that was never initialised
    (and the thread it would join next was never created); after a
    [start] that returned true it returns. *)
Theorem DbgSrv_dtor_requires_start v8 port os :
  (dbgsrv_stop_ (DbgSrv_ctor v8) = async_uninit /\
   dbgsrv_thread_ (DbgSrv_ctor v8) = thread_uninit /\
   dbgproc_proc_ (DbgSrv_ctor v8) = async_idle /\
   dbgproc_stop_ (DbgSrv_ctor v8) = async_idle /\
   dbgproc_thread_ (DbgSrv_ctor v8) = thread_running) /\
  DbgSrv_dtor (DbgSrv_ctor v8) = Undefined (uninit_async a_dbgsrv_stop_) /\
  uv_thread_join t_dbgsrv_thread_ (DbgSrv_ctor v8)
    = Undefined (uninit_thread t_dbgsrv_thread_) /\
  let r := start port os (DbgSrv_ctor v8) in
  if r.1 then
    dbgsrv_stop_ r.2 = async_idle /\ dbgsrv_thread_ r.2 = thread_running /\
    exists db', DbgSrv_dtor r.2 = Returns db'
  else
    dbgsrv_stop_ r.2 = async_uninit /\ dbgsrv_thread_ r.2 = thread_uninit /\
    DbgSrv_dtor r.2 = Undefined (uninit_async a_dbgsrv_stop_) /\
    uv_thread_join t_dbgsrv_thread_ r.2 = Undefined (uninit_thread t_dbgsrv_thread_).
Proof.
  split; [done|]. split; [by apply DbgSrv_dtor_uninit|].
  split; [by apply uv_thread_join_uninit|].
  intros r. pose proof (start_handles port os (DbgSrv_ctor v8)) as Hh.
  pose proof (start_running v8 port os) as Hrun.
  fold r in Hh, Hrun. simpl in Hh. destruct r.1.
  - destruct Hh as (Hs & Ht & _). split; [done|]. split; [done|].
    exists (dtor_result r.2). by apply DbgSrv_dtor_running, Hrun.
  - destruct Hh as (Hs & Ht & _).
    split; [done|]. split; [done|].
    split; [by apply DbgSrv_dtor_uninit|by apply uv_thread_join_uninit].
Qed.

End Shutdown.

Example connected_bridge_running : bridge_running connected_bridge.
Proof. unfold bridge_running. vm_compute. tauto. Qed.

Lemma DbgSrv_dtor_sequence_witness :
  exists db',
    DbgSrv_dtor connected_bridge = Returns db' /\
    run_stmts dtor_stmts [["late"]; []; ["later"]] connected_bridge = Returns db' /\
    effects db' = effects connected_bridge ++ dtor_effects dbgsrv_connected /\
    msg_queue_ db' = [] /\
    callback_ (v8_ db') = None.
Proof.
  destruct (DbgSrv_dtor_sequence connected_bridge [["late"]; []; ["later"]]
              connected_bridge_running)
    as (db' & H1 & H2 & H3 & H4 & H5 & _).
  destruct connected_bridge_state as (Hst & _ & _ & _ & Hq).
  rewrite Hst in H3. rewrite Hq in H4.
  exists db'. exact (conj H1 (conj H2 (conj H3 (conj H4 H5)))).
Defined.

Example dtor_effects_connected :
  dtor_effects dbgsrv_connected =
  [fx_debugger_stop;
   fx_uv_async_send a_dbgsrv_stop_;
   fx_uv_close_async a_dbgsrv_send_; fx_uv_close_tcp s_dbgsrv_clnt_;
   fx_uv_close_tcp s_dbgsrv_serv_; fx_uv_close_async a_dbgsrv_stop_;
   fx_uv_thread_join t_dbgsrv_thread_; fx_uv_loop_close l_dbgsrv_loop_;
   fx_uv_async_send a_dbgproc_stop_;
   fx_uv_close_async a_dbgproc_proc_; fx_uv_close_async a_dbgproc_stop_;
   fx_uv_thread_join t_dbgproc_thread_; fx_uv_loop_close l_dbgproc_loop_].
Proof. reflexivity. Qed.

(** The join does not return while a handle of its loop stays active: had
    the state been recorded as offline with the listener still listening,
    [shutdown_] would close nothing and the destructor would wait for ever. *)
Example DbgSrv_dtor_blocks :
  DbgSrv_dtor (set_status_ dbgsrv_offline connected_bridge) = Blocks t_dbgsrv_thread_.
Proof. vm_compute. reflexivity. Qed.

(** * Further properties *)

(** ** The process-wide runtime *)

Section Runtime.

Lemma runtime_run_cons op ops platform :
  runtime_run (op :: ops) platform =
  let r := match op with
           | op_initialize icu ok => initialize icu ok platform
           | op_dispose => dispose platform
           end in
  ((op, r.1) :: (runtime_run ops r.2).1, (runtime_run ops r.2).2).
Proof.
  simpl. destruct op; [destruct (initialize _ _ _)|destruct (dispose _)];
    simpl; by destruct (runtime_run ops _).
Qed.

(** X1: over any sequence of [initialize] and [dispose] calls, the calls
    of [initialize] that returned true, plus one if the platform was
    installed at the start, are at most the calls of [dispose] that returned
    true, plus one if it is installed at the end.  Starting with no platform,
    [initialize] never succeeds twice without a successful [dispose] in
    between. *)
Theorem runtime_run_balance ops : forall platform,
  initialized (runtime_run ops platform).1 + installed platform
  <= disposed (runtime_run ops platform).1 + installed (runtime_run ops platform).2.
Proof.
  induction ops as [|op ops IH]; intros platform.
  - simpl. lia.
  - rewrite runtime_run_cons.
    destruct op as [icu ok|]; unfold initialize, dispose.
    + destruct platform, icu, ok; simpl;
        match goal with |- context [runtime_run ops ?p] => specialize (IH p) end;
        unfold initialized, disposed, installed in *; simpl in *; lia.
    + destruct platform; simpl;
        match goal with |- context [runtime_run ops ?p] => specialize (IH p) end;
        unfold initialized, disposed, installed in *; simpl in *; lia.
Qed.

(** X2: once a call of [initialize] got past [InitializeICU], the platform
    is installed whatever [V8::Initialize] answered: also after a call that
    returned false, every further [initialize] returns false, whatever the
    engine would answer, until [dispose] is called, which returns true and
    removes the platform. *)
Theorem initialize_refused_until_dispose (Initialize : bool) (args : list (bool * bool)) :
  (initialize true Initialize false).1 = Initialize /\
  runtime_run (map (fun a => op_initialize a.1 a.2) args ++ [op_dispose])
    (initialize true Initialize false).2
  = (map (fun a => (op_initialize a.1 a.2, false)) args ++ [(op_dispose, true)], false).
Proof.
  split; [done|]. change (initialize true Initialize false).2 with true.
  induction args as [|[icu ok] args IH]; [done|].
  cbn [map app]. rewrite runtime_run_cons. cbn [initialize fst snd].
  by rewrite IH.
Qed.

End Runtime.

(** ** Strings crossing the API *)

Section V8_strings.
Context `{E : Engine}.

Lemma c_str_idemp s : c_str (c_str s) = c_str s.
Proof.
  induction s as [|a s IH]; simpl; [done|].
  destruct (Ascii.eqb a Ascii.zero) eqn:Ha; simpl; [done|]. by rewrite Ha, IH.
Qed.

Lemma has_NUL_c_str s : has_NUL (c_str s) = false.
Proof.
  induction s as [|a s IH]; simpl; [done|].
  destruct (Ascii.eqb a Ascii.zero) eqn:Ha; simpl; [done|]. by rewrite Ha, IH.
Qed.

Lemma has_NUL_to_std_string value : has_NUL (to_std_string value) = false.
Proof.
  unfold to_std_string. destruct (Utf8Value value); [apply has_NUL_c_str|reflexivity].
Qed.

(** X3: [eval] hands the source to the engine as a C string: what
    follows the first NUL character of [src] plays no part, in the result
    or in the state. *)
Theorem eval_source_c_str src v : eval src v = eval (c_str src) v.
Proof. unfold eval, new_string. by rewrite c_str_idemp. Qed.

(** X4: the string [eval] returns holds no NUL character, whatever the
    script and the engine: results and exception texts are cut at the first
    one. *)
Theorem eval_result_no_NUL src v r (Hr : eval src v = Returns r) :
  has_NUL r.1 = false.
Proof.
  unfold eval in Hr. destruct (new_context v) as [c v0].
  destruct (Compile _); [|injection Hr as <-; apply has_NUL_to_std_string].
  destruct (Run _ _) as [[result|exception] g];
    [|injection Hr as <-; apply has_NUL_to_std_string].
  destruct (json_stringify _ _) as [[l g']| |]; simpl in Hr; try discriminate.
  injection Hr as <-. apply has_NUL_to_std_string.
Qed.

End V8_strings.

(** ** Registering the debugger callback *)

Section V8_registration.
Context `{E : Engine}.

(** X5: on an instance with a callback registered, [debugger_init]
    returns false and leaves the registered callback, its opaque pointer,
    the message handler and the queued commands as they are; it has all the
    same replaced [dbg_isolate_] by a newly created isolate. *)
Theorem debugger_init_refused cb cb' opq' v (Hreg : callback_ v = Some cb) :
  (debugger_init cb' opq' v).1 = false /\
  callback_ (debugger_init cb' opq' v).2 = Some cb /\
  callbackopq_ (debugger_init cb' opq' v).2 = callbackopq_ v /\
  message_handler (debugger_init cb' opq' v).2 = message_handler v /\
  commands (debugger_init cb' opq' v).2 = commands v /\
  isolate_ (debugger_init cb' opq' v).2 = isolate_ v /\
  dbg_isolate_ (debugger_init cb' opq' v).2 <> dbg_isolate_ v.
Proof.
  unfold debugger_init. simpl. rewrite Hreg. simpl.
  repeat split; try done.
  destruct (dbg_isolate_ v) as [i|]; simpl; [|done].
  intros Hi. injection Hi. lia.
Qed.

Lemma V8_step_registered op v v' :
  registered v -> V8_step op v = Returns v' -> registered v'.
Proof.
  unfold registered. intros [Hh Ho] Hstep.
  destruct op; simpl in Hstep.
  - apply bind_Returns in Hstep as [r [He Hr]]. injection Hr as <-.
    destruct (eval_same _ _ _ He) as (_ & _ & -> & -> & -> & _). done.
  - apply bind_Returns in Hstep as [r [He Hr]]. injection Hr as <-.
    destruct (call_same _ _ _ _ He) as (_ & _ & -> & -> & -> & _). done.
  - injection Hstep as <-. unfold debugger_init. simpl.
    destruct (callback_ v) eqn:Hc; simpl; rewrite ?Hc; [done|]. eauto.
  - apply bind_Returns in Hstep as [[b v1] [Hs Hr]]. injection Hr as <-.
    unfold debugger_send in Hs.
    destruct (dbg_isolate_ v) eqn:Hi; [|discriminate].
    destruct (callback_ v) eqn:Hc; injection Hs as <- <-; simpl; rewrite ?Hc; done.
  - injection Hstep as <-. unfold debugger_process.
    destruct (message_handler v) eqn:Hm; simpl; rewrite ?Hm; done.
  - injection Hstep as <-. simpl. split; [intros [? ?]|]; done.
Qed.

Lemma V8_ctor_registered : registered V8_ctor.
Proof. split; [intros [? ?]|]; done. Qed.

Lemma registered_preserved ops : forall v0 v,
  registered v0 -> V8_run ops v0 = Returns v -> registered v.
Proof.
  induction ops as [|op ops IH]; simpl; intros v0 v Hv Hrun.
  - by injection Hrun as <-.
  - apply bind_Returns in Hrun as [v1 [Hs Hr]].
    eapply IH; [|exact Hr]. eapply V8_step_registered; eauto.
Qed.

(** X6: on every state an instance reaches through its public
    operations, a callback is registered only with the engine's message
    handler installed, and the handler is installed only once
    [callbackopq_] was assigned: whenever the handler runs the callback, it
    passes on an opaque pointer that was assigned. *)
Theorem V8_run_registered ops v (Hrun : V8_run ops V8_ctor = Returns v) :
  (is_Some (callback_ v) -> message_handler v = true) /\
  (message_handler v = true -> is_Some (callbackopq_ v)).
Proof.
  assert (Hv : registered v).
  { eapply registered_preserved; [apply V8_ctor_registered|exact Hrun]. }
  destruct Hv as [Hh Ho]. split; [exact Hh|exact Ho].
Qed.

(** The handler can be installed without a callback: [debugger_init] with
    a null function pointer passes the test, installs the handler and
    returns true; the handler's own test then keeps every message back,
    and a later [debugger_init] succeeds. *)
Lemma debugger_init_null opq cb' opq' message v :
  callback_ v = None ->
  (debugger_init None opq v).1 = true /\
  message_handler (debugger_init None opq v).2 = true /\
  callback_ (debugger_init None opq v).2 = None /\
  debugger_message_handler message (debugger_init None opq v).2 = None /\
  (debugger_init cb' opq' (debugger_init None opq v).2).1 = true.
Proof.
  intros Hc. unfold debugger_init, debugger_message_handler. simpl.
  by rewrite Hc.
Qed.

Lemma send_ops_commands cmds : forall v i cb,
  dbg_isolate_ v = Some i -> callback_ v = Some cb ->
  exists v',
    V8_run (send_ops cmds) v = Returns v' /\
    commands v' = commands v ++ map c_str cmds /\
    callback_ v' = callback_ v /\ callbackopq_ v' = callbackopq_ v /\
    message_handler v' = message_handler v /\ dbg_isolate_ v' = dbg_isolate_ v.
Proof.
  induction cmds as [|cmd cmds IH]; intros v i cb Hi Hc; simpl.
  - exists v. by rewrite app_nil_r.
  - rewrite (debugger_send_initialised _ _ i Hi), Hc. simpl.
    destruct (IH (set_commands (commands v ++ [c_str cmd]) v) i cb Hi Hc)
      as (v' & Hrun & Hcmds & Hcb & Hopq & Hmh & Hdi).
    exists v'. simpl in *. rewrite <- app_assoc in Hcmds. simpl in Hcmds.
    repeat split; congruence.
Qed.

(** X7: with a callback registered, the commands passed to
    [debugger_send] wait in the order of the calls; [debugger_process] then
    runs the callback once for each message the engine produces for them,
    in that order and with the registered opaque pointer, and leaves no
    command behind: a second [debugger_process] runs no callback. *)
Theorem debugger_process_in_order ops cmds v cb
    (Hrun : V8_run ops V8_ctor = Returns v) (Hreg : callback_ v = Some cb) :
  exists v',
    V8_run (send_ops cmds) v = Returns v' /\
    commands v' = commands v ++ map c_str cmds /\
    (debugger_process v').1 =
      map (fun message => (cb, message, callbackopq_ v))
          (concat (map Debug_replies (commands v ++ map c_str cmds))) /\
    commands (debugger_process v').2 = [] /\
    (debugger_process (debugger_process v').2).1 = [].
Proof.
  assert (Hinv : callback_has_isolate v).
  { eapply V8_run_callback_has_isolate; [|exact Hrun]. intros [? ?]. discriminate. }
  destruct (Hinv (ltac:(eauto))) as [i Hi].
  assert (Hh : message_handler v = true).
  { apply (registered_preserved ops V8_ctor v V8_ctor_registered Hrun). eauto. }
  destruct (send_ops_commands cmds v i cb Hi Hreg)
    as (v' & Hsend & Hcmds & Hcb & Hopq & Hmh & _).
  exists v'. split; [exact Hsend|]. split; [exact Hcmds|].
  unfold debugger_process. rewrite Hmh, Hh. simpl. rewrite Hmh, Hh. simpl.
  rewrite Hcmds. split; [|done].
  unfold debugger_message_handler. rewrite Hcb, Hreg, Hopq.
  induction (concat _) as [|m ms IHm]; simpl; [done|]. by f_equal.
Qed.

End V8_registration.

(** ** The steps of a bridge *)

Section Bridge_steps.
Context `{E : Engine}.

Lemma written_to_app fx1 fx2 : written_to (fx1 ++ fx2) = written_to fx1 ++ written_to fx2.
Proof. apply omap_app. Qed.

Lemma written_to_uv_write stream q :
  written_to (map (fx_uv_write stream) q) = map (pair stream) q.
Proof. unfold written_to. induction q as [|m q IH]; simpl; [done|]. by f_equal. Qed.

Lemma written_to_written fx : written fx = map snd (written_to fx).
Proof.
  unfold written, written_to. induction fx as [|e fx IH]; simpl; [done|].
  destruct e; simpl; first [exact IH | f_equal; exact IH].
Qed.

Lemma written_to_callbacks ms :
  written_to (concat (map (fun m => [fx_callback cb_recv_from_debugger_ m;
                                     fx_uv_async_send a_dbgsrv_send_]) ms)) = [].
Proof. induction ms as [|m ms IH]; simpl; done. Qed.

Lemma written_to_signals {A} (l : list A) h :
  written_to (map (fun _ => fx_uv_async_send h) l) = [].
Proof. induction l as [|x l IH]; simpl; done. Qed.

Lemma signalled_idemp a : signalled (signalled a) = signalled a.
Proof. by destruct a. Qed.

Lemma signalled_uninit a : a <> async_uninit -> signalled a <> async_uninit.
Proof. by destruct a. Qed.

Lemma invoke_enqueued message db :
  dbgsrv_send_ db <> async_uninit ->
  invoke (cb_recv_from_debugger_, message, Some opq_DbgSrv) db
  = Returns (enqueued [message] db).
Proof.
  destruct db as [v st q port serv clnt send stop thr sl proc pstop pthr pl fx]. simpl.
  intros Hs. unfold invoke, recv_from_debugger_, uv_async_send, enqueued. simpl.
  destruct send; simpl; try done; unfold emit; simpl; by rewrite <- app_assoc.
Qed.

Lemma invoke_all_enqueued messages : forall db,
  dbgsrv_send_ db <> async_uninit ->
  invoke_all (map (fun m => (cb_recv_from_debugger_, m, Some opq_DbgSrv)) messages) db
  = Returns (enqueued messages db).
Proof.
  induction messages as [|m ms IH]; intros db Hs.
  - destruct db. unfold enqueued. simpl. by rewrite app_nil_r.
  - cbn [map invoke_all]. rewrite (invoke_enqueued m db Hs), Returns_bind.
    rewrite IH; [|by apply signalled_uninit].
    destruct db as [v st q port serv clnt send stop thr sl proc pstop pthr pl fx].
    unfold enqueued. simpl. rewrite <- !app_assoc. simpl.
    by destruct ms; rewrite ?signalled_idemp.
Qed.

Lemma consuming_enqueued messages db : consuming db -> consuming (enqueued messages db).
Proof.
  unfold consuming. destruct db; simpl. intros (? & ? & ? & ? & ? & ?).
  repeat split; try done. destruct messages; [done|]. by apply signalled_uninit.
Qed.

Lemma consuming_forwarded cmds db : consuming db -> consuming (forwarded cmds db).
Proof.
  unfold consuming. destruct db; simpl. intros (? & ? & ? & ? & ? & ?).
  repeat split; try done. destruct cmds; [done|]. by apply signalled_uninit.
Qed.

Lemma engine_message_enqueued message db :
  consuming db -> engine_message message db = Returns (enqueued [message] db).
Proof.
  intros (Hh & Hc & Ho & _ & Hs & _).
  unfold engine_message, debugger_message_handler. rewrite Hh, Hc, Ho.
  by apply invoke_enqueued.
Qed.

Lemma dbgproc_do_proc__enqueued db :
  consuming db ->
  dbgproc_do_proc_ db =
  Returns (enqueued (concat (map Debug_replies (commands (v8_ db))))
             (set_v8_ (set_commands [] (v8_ db)) db)).
Proof.
  intros (Hh & Hc & Ho & _ & Hs & _).
  unfold dbgproc_do_proc_, debugger_process, debugger_message_handler.
  rewrite Hh, Hc, Ho.
  replace (omap _ _) with
    (map (fun m => (cb_recv_from_debugger_, m, Some opq_DbgSrv))
         (concat (map Debug_replies (commands (v8_ db))))).
  - apply invoke_all_enqueued. by destruct db.
  - induction (concat _) as [|m ms IH]; simpl; [done|]. by f_equal.
Qed.

Lemma recv_from_socket__forwarded nread base db :
  consuming db -> (0 < nread)%Z ->
  recv_from_socket_ nread base db = Returns (forwarded [chunk_command nread base] db).
Proof.
  intros (Hh & Hc & Ho & [i Hi] & Hs & Hp) Hn.
  unfold recv_from_socket_.
  destruct (Z.eqb_spec nread 0) as [|_]; [lia|].
  destruct (Z.ltb_spec nread 0) as [|_]; [lia|].
  rewrite (debugger_send_initialised _ _ i Hi), Hc, Returns_bind.
  destruct db as [v st q port serv clnt send stop thr sl proc pstop pthr pl fx].
  simpl in *. unfold uv_async_send, forwarded, chunk_command. simpl.
  by destruct proc.
Qed.

Lemma read_events_forwarded chunks : forall db,
  consuming db -> Forall (fun c => 0 < c.1)%Z chunks ->
  bridge_run (read_events chunks) db
  = Returns (forwarded (map (fun c => chunk_command c.1 c.2) chunks) db).
Proof.
  induction chunks as [|[nread base] chunks IH]; intros db Hc Hpos.
  - destruct db as [[] ]. unfold forwarded. simpl. by rewrite !app_nil_r.
  - apply Forall_cons in Hpos as [Hn Hpos]. simpl in Hn.
    cbn [read_events map bridge_run bridge_step fst snd].
    rewrite (recv_from_socket__forwarded _ _ _ Hc Hn), Returns_bind.
    fold (read_events chunks). rewrite IH; [|by apply consuming_forwarded|done].
    destruct db as [v st q port serv clnt send stop thr sl proc pstop pthr pl fx].
    unfold forwarded. simpl. rewrite <- !app_assoc. simpl.
    by destruct (map _ chunks); rewrite ?signalled_idemp.
Qed.

Lemma bridge_run_app evs1 evs2 db :
  bridge_run (evs1 ++ evs2) db = db1 ← bridge_run evs1 db; bridge_run evs2 db1.
Proof.
  revert db. induction evs1 as [|ev evs1 IH]; intros db; simpl; [done|].
  destruct (bridge_step ev db); simpl; [apply IH|done..].
Qed.

End Bridge_steps.

(** ** Runs of a bridge *)

Section Bridge_runs.
Context `{E : Engine}.

Lemma writes_enqueued messages db : writes (enqueued messages db) = writes db.
Proof.
  unfold writes. rewrite !written_to_written. f_equal.
  destruct db; unfold enqueued; simpl.
  by rewrite written_to_app, written_to_callbacks, app_nil_r.
Qed.

Lemma consuming_set_async h a db :
  consuming db -> a <> async_uninit -> consuming (set_async h a db).
Proof.
  unfold consuming. destruct db; simpl. intros (? & ? & ? & ? & ? & ?) Ha.
  by destruct h.
Qed.

Lemma dispatch_fifo h db :
  consuming db ->
  exists db',
    dispatch h db = Returns db' /\ consuming db' /\
    writes db' ++ rev (msg_queue_ db') =
      writes db ++ rev (msg_queue_ db) ++ step_produced (ev_wake h) db.
Proof.
  intros Hc. unfold dispatch.
  destruct (async_of h db) eqn:Hh;
    try (exists db; split; [done|]; split; [done|];
         destruct h; simpl in *; rewrite ?Hh; by rewrite app_nil_r).
  assert (Hc' : consuming (set_async h async_idle db))
    by (by apply consuming_set_async).
  destruct h; simpl in Hh.
  - eexists. split; [reflexivity|].
    rewrite send_to_socket__closed_form.
    destruct db as [v st q port serv clnt send stop thr sl proc pstop pthr pl fx].
    unfold consuming, writes in *. simpl in *.
    split; [done|]. by rewrite written_app, written_uv_write, !app_nil_r.
  - eexists. split; [reflexivity|].
    destruct db as [v st q port serv clnt send stop thr sl proc pstop pthr pl fx].
    unfold consuming, writes, shutdown_ in *. simpl in *.
    destruct Hc as (? & ? & ? & ? & ? & ?).
    destruct st; simpl; rewrite ?written_app; simpl; rewrite ?app_nil_r; done.
  - rewrite (dbgproc_do_proc__enqueued _ Hc').
    eexists. split; [reflexivity|]. split.
    + apply consuming_enqueued. by destruct db.
    + rewrite writes_enqueued. simpl. rewrite Hh.
      destruct db as [v st q port serv clnt send stop thr sl proc pstop pthr pl fx].
      unfold writes. simpl. by rewrite rev_app_distr, rev_involutive.
  - eexists. split; [reflexivity|].
    destruct db as [v st q port serv clnt send stop thr sl proc pstop pthr pl fx].
    unfold consuming, writes, dbgproc_do_stop_ in *. simpl in *.
    destruct Hc as (? & ? & ? & ? & ? & ?).
    rewrite ?written_app; simpl; rewrite ?app_nil_r; done.
Qed.

Lemma bridge_step_fifo ev db :
  consuming db ->
  exists db',
    bridge_step ev db = Returns db' /\ consuming db' /\
    writes db' ++ rev (msg_queue_ db') =
      writes db ++ rev (msg_queue_ db) ++ step_produced ev db.
Proof.
  intros Hc. destruct ev as [status a|nread base|message|h].
  - eexists. split; [reflexivity|].
    destruct db as [v st q port serv clnt send stop thr sl proc pstop pthr pl fx].
    unfold consuming, writes, accept_ in *. simpl in *.
    destruct Hc as (? & ? & ? & ? & ? & ?).
    destruct (status <? 0)%Z, a; simpl; rewrite ?written_app; simpl;
      rewrite ?app_nil_r; done.
  - simpl. destruct (Z.ltb_spec 0 nread) as [Hn|Hn].
    + rewrite (recv_from_socket__forwarded _ _ _ Hc Hn).
      eexists. split; [reflexivity|]. split; [by apply consuming_forwarded|].
      destruct db as [v st q port serv clnt send stop thr sl proc pstop pthr pl fx].
      unfold writes. simpl. rewrite written_app. simpl. by rewrite !app_nil_r.
    + unfold recv_from_socket_.
      destruct (Z.eqb_spec nread 0) as [|Hz].
      { exists db. by rewrite app_nil_r. }
      destruct (Z.ltb_spec nread 0) as [_|]; [|lia].
      eexists. split; [reflexivity|].
      destruct db as [v st q port serv clnt send stop thr sl proc pstop pthr pl fx].
      unfold consuming, writes in *. simpl in *.
      destruct Hc as (? & ? & ? & ? & ? & ?).
      rewrite ?written_app; simpl; rewrite ?app_nil_r; done.
  - simpl. rewrite (engine_message_enqueued _ _ Hc).
    eexists. split; [reflexivity|]. split; [by apply consuming_enqueued|].
    rewrite writes_enqueued. by destruct db.
  - by apply dispatch_fifo.
Qed.

Lemma fifo_preserved evs : forall db,
  consuming db ->
  exists db',
    bridge_run evs db = Returns db' /\ consuming db' /\
    writes db' ++ rev (msg_queue_ db') =
      writes db ++ rev (msg_queue_ db) ++ run_produced evs db.
Proof.
  induction evs as [|ev evs IH]; intros db Hc.
  - exists db. simpl. by rewrite !app_nil_r.
  - destruct (bridge_step_fifo ev db Hc) as (db1 & Hstep & Hc1 & Hw1).
    destruct (IH db1 Hc1) as (db' & Hrun & Hc' & Hw').
    exists db'. simpl. rewrite Hstep, Returns_bind.
    split; [exact Hrun|]. split; [exact Hc'|].
    rewrite Hw', app_assoc, Hw1. by rewrite <- !app_assoc.
Qed.

(** X8: whatever connection, read, message and wake events a bridge
    goes through once it is the registered consumer of the engine's
    messages and has had a client, every event returns, and the payloads
    written to the socket followed by the queue, oldest first, are at every
    moment the messages the engine handed over, in the order it did: no
    message is dropped, repeated or reordered, also across a disconnect and
    the next connection. *)
Theorem bridge_run_fifo evs db (Hc : consuming db) :
  exists db',
    bridge_run evs db = Returns db' /\
    writes db' ++ rev (msg_queue_ db') =
      writes db ++ rev (msg_queue_ db) ++ run_produced evs db.
Proof.
  destruct (fifo_preserved evs db Hc) as (db' & Hrun & _ & Hw). eauto.
Qed.

End Bridge_runs.

(** ** Stopping a bridge after it has served *)

Section Bridge_serving.
Context `{E : Engine}.

Lemma bridge_serving_running db : bridge_serving db -> bridge_running db.
Proof.
  unfold bridge_serving, bridge_running.
  intros (? & ? & ? & Hs & ? & Hp & ?). rewrite Hs, Hp. done.
Qed.

Lemma invoke_serving c db db' :
  bridge_serving db -> invoke c db = Returns db' -> bridge_serving db'.
Proof.
  destruct c as [[cb message] opq].
  destruct db as [v st q port serv clnt send stop thr sl proc pstop pthr pl fx].
  unfold bridge_serving, invoke, recv_from_debugger_, uv_async_send. simpl.
  intros Hs Hi.
  destruct cb, opq as [[]|]; simpl in Hi;
    try (injection Hi as <-; exact Hs);
    destruct send; simpl in Hi; try discriminate; injection Hi as <-; simpl;
    destruct st; simpl in *; try done;
    destruct Hs as (_ & _ & _ & _ & _ & _ & _ & _ & _ & ?); done.
Qed.

Lemma invoke_all_serving cs : forall db db',
  bridge_serving db -> invoke_all cs db = Returns db' -> bridge_serving db'.
Proof.
  induction cs as [|c cs IH]; simpl; intros db db' Hs Hi.
  - by injection Hi as <-.
  - apply bind_Returns in Hi as (db1 & H1 & H2).
    eapply IH; [|exact H2]. eapply invoke_serving; eauto.
Qed.

Lemma bridge_step_serving ev db db' :
  bridge_serving db -> one_at_a_time ev db ->
  bridge_step ev db = Returns db' -> bridge_serving db'.
Proof.
  intros Hs Hone Hstep. destruct ev as [status a|nread base|message|h]; simpl in Hstep.
  - injection Hstep as <-.
    destruct db as [v st q port serv clnt send stop thr sl proc pstop pthr pl fx].
    unfold bridge_serving, accept_ in *. simpl in *.
    destruct (Z.ltb_spec status 0) as [|Hge]; [done|].
    destruct Hone as [Hneg|Hst]; [lia|]. subst st.
    destruct Hs as (? & ? & ? & ? & ? & ? & Hsl & ? & Hc & Hsd).
    destruct a; simpl; rewrite ?Hc, ?Hsd, ?Hsl; simpl; tauto.
  - unfold recv_from_socket_ in Hstep.
    destruct (nread =? 0)%Z; [by injection Hstep as <-|].
    destruct (nread <? 0)%Z.
    + injection Hstep as <-.
      destruct db as [v st q port serv clnt send stop thr sl proc pstop pthr pl fx].
      unfold bridge_serving in *. simpl in *. tauto.
    + apply bind_Returns in Hstep as (r & _ & Hsend).
      destruct db as [v st q port serv clnt send stop thr sl proc pstop pthr pl fx].
      unfold bridge_serving, uv_async_send in *. simpl in *.
      destruct Hs as (? & ? & ? & ? & Hp & ?).
      destruct proc; try discriminate; injection Hsend as <-; simpl; done.
  - unfold engine_message in Hstep.
    destruct (message_handler (v8_ db)); [|by injection Hstep as <-].
    destruct (debugger_message_handler message (v8_ db)) as [c|];
      [|by injection Hstep as <-].
    eapply invoke_serving; eauto.
  - unfold dispatch in Hstep.
    destruct (async_of h db) eqn:Hh; try (by injection Hstep as <-).
    destruct h; simpl in Hh.
    + injection Hstep as <-. rewrite send_to_socket__closed_form.
      destruct db as [v st q port serv clnt send stop thr sl proc pstop pthr pl fx].
      unfold bridge_serving in *. simpl in *. subst send.
      destruct st; simpl in *; tauto.
    + destruct Hs as (_ & _ & _ & Hstop & _). congruence.
    + unfold dbgproc_do_proc_ in Hstep.
      destruct (debugger_process _) as [calls v1].
      eapply invoke_all_serving; [|exact Hstep].
      destruct db as [v st q port serv clnt send stop thr sl proc pstop pthr pl fx].
      unfold bridge_serving in *. simpl in *. subst proc. tauto.
    + destruct Hs as (_ & _ & _ & _ & _ & Hstop & _). congruence.
Qed.

Lemma bridge_run_serving evs : forall db db',
  bridge_serving db -> one_client evs db ->
  bridge_run evs db = Returns db' -> bridge_serving db'.
Proof.
  induction evs as [|ev evs IH]; simpl; intros db db' Hs Hone Hrun.
  - by injection Hrun as <-.
  - destruct Hone as [Hev Hone].
    apply bind_Returns in Hrun as (db1 & H1 & H2). rewrite H1 in Hone.
    eapply IH; [|exact Hone|exact H2]. eapply bridge_step_serving; eauto.
Qed.

Lemma start_serving v8 port os :
  (start port os (DbgSrv_ctor v8)).1 = true ->
  bridge_serving (start port os (DbgSrv_ctor v8)).2.
Proof.
  unfold start, bridge_serving.
  destruct v8 as [iso dbg ctx cb opq mh cmds]; destruct cb;
    destruct (uv_tcp_bind os =? 0)%Z; destruct (port =? 0)%Z;
    destruct (uv_tcp_getsockname os =? 0)%Z; destruct (uv_listen os =? 0)%Z;
    vm_compute; intros; try discriminate; tauto.
Qed.

(** X9: after a [start] that returned true, whatever connection,
    read, message and wake events the bridge has gone through (clients
    connecting and leaving, commands read, replies relayed), provided every
    connection event found no client connected, the destructor returns:
    its two joins end, the bridge is offline and both threads have been
    joined. *)
Theorem DbgSrv_dtor_after_run v8 port os evs db
    (Hstart : (start port os (DbgSrv_ctor v8)).1 = true)
    (Hone : one_client evs (start port os (DbgSrv_ctor v8)).2)
    (Hrun : bridge_run evs (start port os (DbgSrv_ctor v8)).2 = Returns db) :
  exists db',
    DbgSrv_dtor db = Returns db' /\
    effects db' = effects db ++ dtor_effects (status_ db) /\
    status_ db' = dbgsrv_offline /\
    dbgsrv_thread_ db' = thread_joined /\
    dbgproc_thread_ db' = thread_joined.
Proof.
  assert (Hs : bridge_serving db).
  { eapply bridge_run_serving; [|exact Hone|exact Hrun]. by apply start_serving. }
  exists (dtor_result db).
  split; [by apply DbgSrv_dtor_running, bridge_serving_running|].
  assert (Hst : status_ db <> dbgsrv_offline).
  { destruct Hs as (_ & _ & _ & _ & _ & _ & _ & _ & Hst). by destruct (status_ db). }
  destruct (dtor_result_fields db Hst) as (? & _ & _ & ? & ? & ?). done.
Qed.

Lemma invoke_stale c db db' :
  invoke c db = Returns db' -> dbgsrv_loop_ db' = dbgsrv_loop_ db.
Proof.
  destruct c as [[cb message] opq].
  destruct db as [v st q port serv clnt send stop thr sl proc pstop pthr pl fx].
  unfold invoke, recv_from_debugger_, uv_async_send. simpl. intros Hi.
  destruct cb, opq as [[]|]; simpl in Hi;
    try (by injection Hi as <-);
    destruct send; simpl in Hi; try discriminate; by injection Hi as <-.
Qed.

Lemma invoke_all_stale cs : forall db db',
  invoke_all cs db = Returns db' -> dbgsrv_loop_ db' = dbgsrv_loop_ db.
Proof.
  induction cs as [|c cs IH]; simpl; intros db db' Hi.
  - by injection Hi as <-.
  - apply bind_Returns in Hi as (db1 & H1 & H2).
    rewrite (IH _ _ H2). by apply invoke_stale in H1.
Qed.

Lemma dispatch_stale h db db' :
  dispatch h db = Returns db' -> dbgsrv_loop_ db' = dbgsrv_loop_ db.
Proof.
  unfold dispatch. intros Hstep.
  destruct (async_of h db) eqn:Hh; try (by injection Hstep as <-).
  destruct h; simpl in Hh.
  - injection Hstep as <-. rewrite send_to_socket__closed_form. by destruct db.
  - injection Hstep as <-.
    destruct db as [v st q port serv clnt send stop thr sl proc pstop pthr pl fx].
    unfold shutdown_. simpl. by destruct st.
  - unfold dbgproc_do_proc_ in Hstep.
    destruct (debugger_process _) as [calls v1].
    apply invoke_all_stale in Hstep. by destruct db.
  - injection Hstep as <-. by destruct db.
Qed.

Lemma bridge_step_stale ev db db' :
  bridge_step ev db = Returns db' -> (dbgsrv_loop_ db <= dbgsrv_loop_ db')%nat.
Proof.
  intros Hstep. destruct ev as [status a|nread base|message|h]; simpl in Hstep.
  - injection Hstep as <-.
    destruct db as [v st q port serv clnt send stop thr sl proc pstop pthr pl fx].
    unfold accept_. simpl.
    destruct (status <? 0)%Z; [done|].
    destruct a; simpl; destruct (tcp_active clnt), (async_active send); simpl; lia.
  - unfold recv_from_socket_ in Hstep.
    destruct (nread =? 0)%Z; [by injection Hstep as <-|].
    destruct (nread <? 0)%Z; [injection Hstep as <-; by destruct db|].
    apply bind_Returns in Hstep as (r & _ & Hsend).
    destruct db as [v st q port serv clnt send stop thr sl proc pstop pthr pl fx].
    unfold uv_async_send in Hsend. simpl in *.
    destruct proc; try discriminate; by injection Hsend as <-.
  - unfold engine_message in Hstep.
    destruct (message_handler (v8_ db)); [|by injection Hstep as <-].
    destruct (debugger_message_handler message (v8_ db)) as [c|];
      [|by injection Hstep as <-].
    by rewrite (invoke_stale _ _ _ Hstep).
  - by rewrite (dispatch_stale _ _ _ Hstep).
Qed.

Lemma bridge_run_stale evs : forall db db',
  bridge_run evs db = Returns db' -> (dbgsrv_loop_ db <= dbgsrv_loop_ db')%nat.
Proof.
  induction evs as [|ev evs IH]; simpl; intros db db' Hrun.
  - by injection Hrun as <-.
  - apply bind_Returns in Hrun as (db1 & H1 & H2).
    apply bridge_step_stale in H1. apply IH in H2. lia.
Qed.

Lemma DbgSrv_dtor_stale db db' :
  (0 < dbgsrv_loop_ db)%nat -> DbgSrv_dtor db <> Returns db'.
Proof.
  intros Hl Hd. unfold DbgSrv_dtor in Hd.
  apply bind_Returns in Hd as (db1 & H1 & Hd).
  apply bind_Returns in Hd as (db2 & H2 & _).
  assert (Hl1 : (0 < dbgsrv_loop_ db1)%nat).
  { unfold uv_async_send in H1. simpl in H1.
    destruct (dbgsrv_stop_ db); try discriminate; injection H1 as <-; by destruct db. }
  unfold uv_thread_join in H2. simpl in H2.
  destruct (dbgsrv_thread_ db1); try discriminate.
  apply bind_Returns in H2 as (db3 & H3 & H2).
  assert (Hl3 : (0 < dbgsrv_loop_ db3)%nat).
  { apply bind_Returns in H3 as (db4 & H4 & H3).
    apply dispatch_stale in H4, H3. lia. }
  assert (Halive : loop_alive l_dbgsrv_loop_ db3 = true).
  { simpl. apply Nat.ltb_lt in Hl3. rewrite Hl3. by rewrite !orb_true_r. }
  simpl in H2. simpl in Halive. rewrite Halive in H2. discriminate.
Qed.

(** X15: a connection event that arrives while a client is connected
    runs [uv_tcp_init] (and, when the connection is accepted,
    [uv_async_init]) on handles that are active.  What the network loop had
    registered through them stays registered and nothing can close it any
    more: whatever events follow, the destructor does not return. *)
Theorem DbgSrv_dtor_after_second_client db status uv_accept evs db1
    (Hclnt : tcp_active (dbgsrv_clnt_ db) = true)
    (Hstatus : (0 <= status)%Z)
    (Hrun : bridge_run (ev_connection status uv_accept :: evs) db = Returns db1) :
  (0 < dbgsrv_loop_ db1)%nat /\
  forall db2, DbgSrv_dtor db1 <> Returns db2.
Proof.
  assert (Hl : (0 < dbgsrv_loop_ db1)%nat).
  { cbn [bridge_run bridge_step] in Hrun. rewrite Returns_bind in Hrun.
    apply bridge_run_stale in Hrun.
    assert (0 < dbgsrv_loop_ (accept_ status uv_accept db))%nat; [|lia].
    destruct db as [v st q port serv clnt send stop thr sl proc pstop pthr pl fx].
    unfold accept_. simpl in *.
    destruct (Z.ltb_spec status 0); [lia|].
    destruct uv_accept; simpl; rewrite Hclnt; destruct (async_active send); simpl; lia. }
  split; [exact Hl|]. intros db2. by apply DbgSrv_dtor_stale.
Qed.

End Bridge_serving.

(** ** What [start] leaves behind *)

Section Start.
Context `{E : Engine}.

(** X10: [start] returns true exactly when the bind, the read-back
    of the port (made for port 0 only) and the listen all succeed; what
    [debugger_init] answers plays no part.  On success the bridge is in
    state started, listens, reports the requested port (for port 0 the one
    read back), and some callback is registered with the engine; on failure
    the state and the engine are as before and the socket does not listen. *)
Theorem start_result port os db :
  ((start port os db).1 = true <->
   uv_tcp_bind os = 0%Z /\ (port = 0%Z -> uv_tcp_getsockname os = 0%Z) /\
   uv_listen os = 0%Z) /\
  ((start port os db).1 = true ->
   get_port (start port os db).2 = (if (port =? 0)%Z then sin_port os else port) /\
   status_ (start port os db).2 = dbgsrv_started /\
   dbgsrv_serv_ (start port os db).2 = tcp_listening /\
   is_Some (callback_ (v8_ (start port os db).2))) /\
  ((start port os db).1 = false ->
   status_ (start port os db).2 = status_ db /\
   v8_ (start port os db).2 = v8_ db /\
   dbgsrv_serv_ (start port os db).2 <> tcp_listening).
Proof.
  destruct db as [[iso di ctx cb opq mh cmds] st q p serv clnt send stop thr sl proc pstop pthr pl fx].
  unfold start, debugger_init. simpl.
  destruct (Z.eqb_spec (uv_tcp_bind os) 0) as [Hb|Hb];
    destruct (Z.eqb_spec port 0) as [Hp|Hp];
    destruct (Z.eqb_spec (uv_tcp_getsockname os) 0) as [Hg|Hg];
    destruct (Z.eqb_spec (uv_listen os) 0) as [Hl|Hl];
    destruct cb; simpl;
    (split; [split; [intros; try discriminate; tauto | intros (? & ? & ?); tauto]|]);
    (split; [intros; try discriminate; eauto | intros; try discriminate; done]).
Qed.

(** X11: [start] registers the bridge's callback with the engine, but
    the handle that callback signals is initialised when a client is
    accepted.  On a bridge started on an engine without a callback, a
    message the engine reports before the first client connects runs
    [recv_from_debugger_] on a handle that was never initialised: the step
    has no defined result. *)
Theorem engine_message_before_client v8 port os message
    (Hcb : callback_ v8 = None)
    (Hstart : (start port os (DbgSrv_ctor v8)).1 = true) :
  dbgsrv_send_ (start port os (DbgSrv_ctor v8)).2 = async_uninit /\
  callback_ (v8_ (start port os (DbgSrv_ctor v8)).2) = Some cb_recv_from_debugger_ /\
  engine_message message (start port os (DbgSrv_ctor v8)).2
  = Undefined (uninit_async a_dbgsrv_send_).
Proof.
  revert Hstart. unfold start.
  destruct v8 as [iso dbg ctx cb opq mh cmds]. simpl in Hcb. subst cb.
  destruct (uv_tcp_bind os =? 0)%Z; destruct (port =? 0)%Z;
    destruct (uv_tcp_getsockname os =? 0)%Z; destruct (uv_listen os =? 0)%Z;
    vm_compute; intros; try discriminate; tauto.
Qed.

Lemma invoke_all_host fn opq ms : forall db,
  invoke_all (map (fun m => (cb_host fn, m, opq)) ms) db
  = Returns (set_effects (effects db ++ map (fx_callback (cb_host fn)) ms) db).
Proof.
  induction ms as [|m ms IH]; intros db.
  - destruct db. simpl. unfold set_effects. simpl. by rewrite app_nil_r.
  - cbn [map invoke_all invoke]. rewrite Returns_bind, IH.
    destruct db. unfold emit, set_effects. simpl. by rewrite <- app_assoc.
Qed.

Lemma written_callbacks cb ms : written (map (fx_callback cb) ms) = [].
Proof. induction ms as [|m ms IH]; simpl; done. Qed.

Lemma bridge_step_unheard fn ev db :
  unheard fn db -> exists db', bridge_step ev db = Returns db' /\ unheard fn db'.
Proof.
  intros (Hc & [i Hi] & Hp & Hq & Hw).
  destruct ev as [status a|nread base|message|h]; simpl.
  - eexists. split; [reflexivity|].
    destruct db as [v st q port serv clnt send stop thr sl proc pstop pthr pl fx].
    unfold unheard, writes, accept_ in *. simpl in *.
    destruct (status <? 0)%Z, a; simpl; rewrite ?written_app, ?Hw; simpl; eauto 10.
  - unfold recv_from_socket_.
    destruct (nread =? 0)%Z. { exists db. unfold unheard. eauto 10. }
    destruct (nread <? 0)%Z.
    + eexists. split; [reflexivity|].
      destruct db as [v st q port serv clnt send stop thr sl proc pstop pthr pl fx].
      unfold unheard, writes in *. simpl in *.
      rewrite ?written_app, ?Hw; simpl; eauto 10.
    + rewrite (debugger_send_initialised _ _ i Hi), Hc, Returns_bind.
      destruct db as [v st q port serv clnt send stop thr sl proc pstop pthr pl fx].
      unfold unheard, writes, uv_async_send in *. simpl in *.
      destruct proc; try done; eexists; (split; [reflexivity|]); simpl;
        rewrite ?written_app, ?Hw; simpl; eauto 10.
  - unfold engine_message, debugger_message_handler. rewrite Hc.
    destruct (message_handler (v8_ db)); [|exists db; unfold unheard; eauto 10].
    eexists. split; [reflexivity|].
    destruct db as [v st q port serv clnt send stop thr sl proc pstop pthr pl fx].
    unfold unheard, writes in *. simpl in *.
    rewrite ?written_app, ?Hw; simpl; eauto 10.
  - unfold dispatch.
    destruct (async_of h db) eqn:Hh;
      try solve [exists db; unfold unheard; eauto 10].
    destruct h; simpl in Hh.
    + eexists. split; [reflexivity|]. rewrite send_to_socket__closed_form.
      destruct db as [v st q port serv clnt send stop thr sl proc pstop pthr pl fx].
      unfold unheard, writes in *. simpl in *. subst q.
      simpl. rewrite app_nil_r. eauto 10.
    + eexists. split; [reflexivity|].
      destruct db as [v st q port serv clnt send stop thr sl proc pstop pthr pl fx].
      unfold unheard, writes, shutdown_ in *. simpl in *.
      destruct st; simpl; rewrite ?written_app, ?Hw; simpl; eauto 10.
    + unfold dbgproc_do_proc_, debugger_process, debugger_message_handler.
      destruct db as [v st q port serv clnt send stop thr sl proc pstop pthr pl fx].
      unfold writes in Hw. simpl in *. rewrite Hc.
      destruct (message_handler v).
      * replace (omap _ _) with
          (map (fun m => (cb_host fn, m, callbackopq_ v))
               (concat (map Debug_replies (commands v)))).
        2:{ induction (concat _) as [|m ms IH]; simpl; [done|]. by f_equal. }
        rewrite invoke_all_host. eexists. split; [reflexivity|].
        unfold unheard, writes. simpl.
        rewrite written_app, written_callbacks, Hw. simpl. eauto 10.
      * eexists. split; [reflexivity|]. unfold unheard, writes. simpl. eauto 10.
    + eexists. split; [reflexivity|].
      destruct db as [v st q port serv clnt send stop thr sl proc pstop pthr pl fx].
      unfold unheard, writes, dbgproc_do_stop_ in *. simpl in *.
      rewrite ?written_app, ?Hw; simpl. split; [done|]. split; [eauto|]. done.
Qed.

Lemma bridge_run_unheard fn evs : forall db,
  unheard fn db -> exists db', bridge_run evs db = Returns db' /\ unheard fn db'.
Proof.
  induction evs as [|ev evs IH]; intros db Hu; simpl; [by exists db|].
  destruct (bridge_step_unheard fn ev db Hu) as (db1 & -> & Hu1).
  rewrite Returns_bind. by apply IH.
Qed.

Lemma start_unheard fn v8 port os :
  callback_ v8 = Some (cb_host fn) ->
  (start port os (DbgSrv_ctor v8)).1 = true ->
  unheard fn (start port os (DbgSrv_ctor v8)).2.
Proof.
  intros Hcb. unfold start, unheard.
  destruct v8 as [iso dbg ctx cb opq mh cmds]. simpl in Hcb. subst cb.
  destruct (uv_tcp_bind os =? 0)%Z; destruct (port =? 0)%Z;
    destruct (uv_tcp_getsockname os =? 0)%Z; destruct (uv_listen os =? 0)%Z;
    vm_compute; intros; try discriminate; repeat split; eauto; discriminate.
Qed.

(** X12: [start] does not look at what [debugger_init] returns.  On an
    engine on which the host has registered a callback of its own, a
    [start] whose socket calls succeed returns true although the bridge was
    not registered: through every later event the host's callback stays the
    registered one, nothing enters the bridge's queue and nothing is written
    to a client. *)
Theorem start_beside_host_callback v8 port os fn evs
    (Hcb : callback_ v8 = Some (cb_host fn))
    (Hstart : (start port os (DbgSrv_ctor v8)).1 = true) :
  exists db',
    bridge_run evs (start port os (DbgSrv_ctor v8)).2 = Returns db' /\
    callback_ (v8_ db') = Some (cb_host fn) /\
    msg_queue_ db' = [] /\
    writes db' = [].
Proof.
  destruct (bridge_run_unheard fn evs _ (start_unheard fn v8 port os Hcb Hstart))
    as (db' & Hrun & Hc & _ & _ & Hq & Hw).
  eauto.
Qed.

End Start.

(** ** Commands in, replies out *)

Section Round_trip.
Context `{E : Engine}.

Lemma dispatch_proc_pending db :
  consuming db -> dbgproc_proc_ db = async_pending ->
  dispatch a_dbgproc_proc_ db =
  Returns (enqueued (concat (map Debug_replies (commands (v8_ db))))
             (set_v8_ (set_commands [] (v8_ db))
                (set_async a_dbgproc_proc_ async_idle db))).
Proof.
  intros Hc Hp. unfold dispatch. simpl. rewrite Hp.
  rewrite dbgproc_do_proc__enqueued; [by destruct db|].
  by apply consuming_set_async.
Qed.

Lemma dispatch_send_pending db :
  dbgsrv_send_ db = async_pending ->
  dispatch a_dbgsrv_send_ db =
  Returns (set_msg_queue_ []
             (set_effects
                (effects db ++ map (fx_uv_write (dbgsrv_clnt_ db)) (rev (msg_queue_ db)))
                (set_async a_dbgsrv_send_ async_idle db))).
Proof.
  intros Hs. unfold dispatch. simpl. rewrite Hs.
  rewrite send_to_socket__closed_form. by destruct db.
Qed.

(** Reduces the field reads of a state given by its fields. *)
Ltac read_fields :=
  cbv [enqueued forwarded set_v8_ set_async set_msg_queue_ set_effects set_commands
       v8_ status_ msg_queue_ dbgsrv_port_ dbgsrv_serv_ dbgsrv_clnt_ dbgsrv_send_
       dbgsrv_stop_ dbgsrv_thread_ dbgsrv_loop_ dbgproc_proc_ dbgproc_stop_
       dbgproc_thread_ dbgproc_loop_ effects
       isolate_ dbg_isolate_ context_ callback_ callbackopq_ message_handler commands
       signalled].

(** X13: on a connected bridge at rest (no command waiting, nothing
    queued, both wake handles idle), the data of each read event is passed
    to the engine as one command, cut at its first NUL character; when the
    processing loop and then the network loop run their handlers, the
    replies the engine produces for these commands are written to the
    client in the order of the reads, and the bridge is at rest again. *)
Theorem command_reply_round_trip chunks db
    (Hc : consuming db)
    (Hp : dbgproc_proc_ db = async_idle) (Hs : dbgsrv_send_ db = async_idle)
    (Hcmds : commands (v8_ db) = []) (Hq : msg_queue_ db = [])
    (Hpos : Forall (fun c => 0 < c.1)%Z chunks) :
  exists db',
    bridge_run (read_events chunks ++ [ev_wake a_dbgproc_proc_; ev_wake a_dbgsrv_send_]) db
    = Returns db' /\
    written_to (effects db') =
      written_to (effects db) ++
      map (pair (dbgsrv_clnt_ db))
          (concat (map Debug_replies (map (fun c => chunk_command c.1 c.2) chunks))) /\
    consuming db' /\
    dbgproc_proc_ db' = async_idle /\ dbgsrv_send_ db' = async_idle /\
    commands (v8_ db') = [] /\ msg_queue_ db' = [].
Proof.
  rewrite bridge_run_app, (read_events_forwarded _ _ Hc Hpos), Returns_bind.
  pose proof (consuming_forwarded (map (fun c => chunk_command c.1 c.2) chunks) db Hc)
    as Hcf.
  destruct Hc as (Hh & Hcb & Ho & Hi & _ & _).
  destruct (map (fun c => chunk_command c.1 c.2) chunks) as [|cmd cmds].
  - (* no data was read: neither handle is signalled *)
    cbn [bridge_run bridge_step]. unfold dispatch.
    destruct db as [[iso di ctx cb opq mh cmds0] st q port serv clnt send stop thr
                      sl proc pstop pthr pl fx].
    simpl in Hp, Hs, Hq, Hcmds, Hh, Hcb, Ho, Hi. subst proc send q cmds0 cb opq mh.
    unfold async_of. read_fields. rewrite !Returns_bind. unfold async_of. read_fields.
    eexists. split; [reflexivity|]. unfold consuming. read_fields.
    cbn [concat map app]. rewrite !app_nil_r.
    repeat split; done.
  - cbn [bridge_run bridge_step].
    rewrite dispatch_proc_pending;
      [|exact Hcf|by destruct db as [[] ]; simpl in Hp; subst; read_fields].
    rewrite Returns_bind.
    assert (Hcmd : commands (v8_ (forwarded (cmd :: cmds) db)) = cmd :: cmds).
    { destruct db as [[] ]. simpl in Hcmds. read_fields. by rewrite Hcmds. }
    rewrite Hcmd.
    destruct (concat (map Debug_replies (cmd :: cmds))) as [|r rs].
    + (* the engine had nothing to say *)
      unfold dispatch.
      destruct db as [[iso di ctx cb opq mh cmds0] st q port serv clnt send stop thr
                        sl proc pstop pthr pl fx].
      simpl in Hp, Hs, Hq, Hcmds, Hh, Hcb, Ho, Hi. subst proc send q cmds0 cb opq mh.
      unfold async_of. read_fields.
      eexists. split; [reflexivity|]. unfold consuming. read_fields.
      rewrite !written_to_app, written_to_signals, written_to_callbacks, !app_nil_r.
      cbn [map rev app]. rewrite ?app_nil_r.
      repeat split; done.
    + rewrite dispatch_send_pending;
        [|by destruct db as [[] ]; simpl in Hs; subst; read_fields].
      rewrite Returns_bind.
      eexists. split; [reflexivity|].
      destruct db as [[iso di ctx cb opq mh cmds0] st q port serv clnt send stop thr
                        sl proc pstop pthr pl fx].
      simpl in Hp, Hs, Hq, Hcmds, Hh, Hcb, Ho, Hi. subst proc send q cmds0 cb opq mh.
      unfold consuming. read_fields.
      rewrite !written_to_app, written_to_uv_write, written_to_signals,
        written_to_callbacks, !app_nil_r, rev_involutive.
      repeat split; done.
Qed.

(** X14: when the client leaves, what the engine reports next is
    kept: the message is queued, the signal to the closed send handle is
    lost, and the next connection re-initialises that handle, so the first
    run of the network loop writes nothing.  The message is written to the
    new client when a further message signals the handle, ahead of that
    message. *)
Theorem queued_message_reaches_next_client db nread base m1 m2 peer
    (Hc : consuming db) (Hq : msg_queue_ db = []) (Hn : (nread < 0)%Z) :
  exists db1 db2,
    bridge_run [ev_read nread base; ev_message m1;
                ev_connection 0 (Some peer); ev_wake a_dbgsrv_send_] db = Returns db1 /\
    msg_queue_ db1 = [m1] /\
    written_to (effects db1) = written_to (effects db) /\
    bridge_run [ev_message m2; ev_wake a_dbgsrv_send_] db1 = Returns db2 /\
    msg_queue_ db2 = [] /\
    written_to (effects db2) =
      written_to (effects db) ++ [(tcp_reading peer, m1); (tcp_reading peer, m2)].
Proof.
  destruct Hc as (Hh & Hcb & Ho & Hi & Hs & Hp).
  destruct db as [[iso di ctx cb opq mh cmds] st q port serv clnt send stop thr
                    sl proc pstop pthr pl fx].
  simpl in Hh, Hcb, Ho, Hi, Hs, Hp, Hq. subst cb opq mh q.
  assert (H0 : (nread =? 0)%Z = false) by lia.
  assert (H1 : (nread <? 0)%Z = true) by lia.
  eexists. eexists.
  split.
  { cbn [bridge_run bridge_step]. unfold recv_from_socket_. rewrite H0, H1.
    cbv - [send_to_socket_ app]. reflexivity. }
  split; [reflexivity|].
  split; [cbn [effects]; by rewrite !written_to_app, !app_nil_r|].
  split.
  { cbn [bridge_run bridge_step]. cbv - [send_to_socket_ app].
    rewrite send_to_socket__closed_form. cbv - [app]. reflexivity. }
  split; [reflexivity|].
  cbn [effects]. rewrite !written_to_app. simpl. by rewrite !app_nil_r.
Qed.

End Round_trip.

(** ** The statements above on concrete input *)

Lemma eval_result_no_NUL_witness :
  exists v', eval "1" V8_ctor = Returns ("1", v') /\ has_NUL "1" = false.
Proof.
  eexists. split; [reflexivity|].
  eapply (eval_result_no_NUL "1" V8_ctor ("1", _)). reflexivity.
Defined.

Lemma debugger_init_refused_witness :
  (debugger_init (Some cb_recv_from_debugger_) opq_DbgSrv host_v8).1 = false /\
  callback_ (debugger_init (Some cb_recv_from_debugger_) opq_DbgSrv host_v8).2
  = Some (cb_host 1) /\
  dbg_isolate_ host_v8 = Some 0 /\
  dbg_isolate_ (debugger_init (Some cb_recv_from_debugger_) opq_DbgSrv host_v8).2 = Some 1.
Proof.
  assert (Hreg : callback_ host_v8 = Some (cb_host 1)) by reflexivity.
  destruct (debugger_init_refused (cb_host 1) (Some cb_recv_from_debugger_) opq_DbgSrv
              host_v8 Hreg)
    as (H1 & H2 & _).
  exact (conj H1 (conj H2 (conj eq_refl eq_refl))).
Defined.

Lemma V8_run_registered_witness :
  (is_Some (callback_ host_v8) -> message_handler host_v8 = true) /\
  (message_handler host_v8 = true -> is_Some (callbackopq_ host_v8)).
Proof.
  apply (V8_run_registered [op_debugger_init (Some (cb_host 1)) (opq_host 1)] host_v8).
  reflexivity.
Defined.

Lemma debugger_process_in_order_witness :
  exists v',
    V8_run (send_ops ["a"; "b"]) host_v8 = Returns v' /\
    (debugger_process v').1 =
      [(cb_host 1, "response:a", Some (opq_host 1));
       (cb_host 1, "response:b", Some (opq_host 1))] /\
    (debugger_process (debugger_process v').2).1 = [].
Proof.
  assert (Hrun : V8_run [op_debugger_init (Some (cb_host 1)) (opq_host 1)] V8_ctor
                 = Returns host_v8) by reflexivity.
  assert (Hreg : callback_ host_v8 = Some (cb_host 1)) by reflexivity.
  destruct (debugger_process_in_order _ ["a"; "b"] host_v8 (cb_host 1) Hrun Hreg)
    as (v' & Hsend & _ & Hp & _ & Hp2).
  exists v'. split; [exact Hsend|]. split; [|exact Hp2].
  rewrite Hp. reflexivity.
Defined.

Example connected_bridge_consuming : consuming connected_bridge.
Proof. vm_compute. repeat split; eauto; discriminate. Qed.

Lemma bridge_run_fifo_witness :
  exists db',
    bridge_run two_clients connected_bridge = Returns db' /\
    writes db' ++ rev (msg_queue_ db') = ["a"; "response:c"; "b"].
Proof.
  destruct (bridge_run_fifo two_clients connected_bridge connected_bridge_consuming)
    as (db' & Hrun & Hw).
  exists db'. split; [exact Hrun|]. rewrite Hw. vm_compute. reflexivity.
Defined.

Lemma DbgSrv_dtor_after_run_witness :
  exists db db',
    bridge_run short_visit (start 0 os_ok (DbgSrv_ctor V8_ctor)).2 = Returns db /\
    DbgSrv_dtor db = Returns db' /\
    status_ db' = dbgsrv_offline.
Proof.
  assert (Hstart : (start 0 os_ok (DbgSrv_ctor V8_ctor)).1 = true)
    by (vm_compute; reflexivity).
  destruct (bridge_run short_visit (start 0 os_ok (DbgSrv_ctor V8_ctor)).2)
    as [db| |] eqn:Hrun; [|vm_compute in Hrun; discriminate..].
  assert (Hone : one_client short_visit (start 0 os_ok (DbgSrv_ctor V8_ctor)).2)
    by (vm_compute; auto 10).
  destruct (DbgSrv_dtor_after_run V8_ctor 0 os_ok short_visit db Hstart Hone Hrun)
    as (db' & Hd & _ & Hst & _).
  exists db, db'. exact (conj eq_refl (conj Hd Hst)).
Defined.

Lemma DbgSrv_dtor_after_second_client_witness :
  exists db1,
    bridge_run [ev_connection 0 (Some 2)] connected_bridge = Returns db1 /\
    (0 < dbgsrv_loop_ db1)%nat /\
    DbgSrv_dtor db1 = Blocks t_dbgsrv_thread_.
Proof.
  exists (accept_ 0 (Some 2) connected_bridge).
  split; [reflexivity|]. split; [|vm_compute; reflexivity].
  apply (DbgSrv_dtor_after_second_client connected_bridge 0 (Some 2) []);
    [vm_compute; reflexivity|lia|reflexivity].
Defined.

Lemma engine_message_before_client_witness :
  engine_message "{}" (start 0 os_ok (DbgSrv_ctor V8_ctor)).2
  = Undefined (uninit_async a_dbgsrv_send_).
Proof.
  apply (engine_message_before_client V8_ctor 0 os_ok "{}"); vm_compute; reflexivity.
Defined.

Lemma start_beside_host_callback_witness :
  (start 0 os_ok (DbgSrv_ctor host_v8)).1 = true /\
  exists db',
    bridge_run (ev_message "a" :: short_visit ++ [ev_wake a_dbgsrv_send_])
      (start 0 os_ok (DbgSrv_ctor host_v8)).2 = Returns db' /\
    callback_ (v8_ db') = Some (cb_host 1) /\
    msg_queue_ db' = [] /\
    writes db' = [].
Proof.
  assert (Hstart : (start 0 os_ok (DbgSrv_ctor host_v8)).1 = true)
    by (vm_compute; reflexivity).
  split; [exact Hstart|].
  apply (start_beside_host_callback host_v8 0 os_ok 1); [reflexivity|exact Hstart].
Defined.

Lemma command_reply_round_trip_witness :
  exists db',
    bridge_run (read_events [(1, "a"); (2, "bcd")]%Z
                  ++ [ev_wake a_dbgproc_proc_; ev_wake a_dbgsrv_send_])
      connected_bridge = Returns db' /\
    written_to (effects db') =
      [(tcp_reading 1, "response:a"); (tcp_reading 1, "response:bc")] /\
    msg_queue_ db' = [].
Proof.
  assert (Hpos : Forall (fun c : Z * string => (0 < c.1)%Z) [(1, "a"); (2, "bcd")]%Z).
  { repeat constructor. }
  destruct (command_reply_round_trip [(1, "a"); (2, "bcd")]%Z connected_bridge
              connected_bridge_consuming) as (db' & Hrun & Hw & _ & _ & _ & _ & Hq);
    [vm_compute; reflexivity..|exact Hpos|].
  exists db'. split; [exact Hrun|]. split; [|exact Hq].
  rewrite Hw. vm_compute. reflexivity.
Defined.

Lemma queued_message_reaches_next_client_witness :
  exists db1 db2,
    bridge_run [ev_read (-4095) ""; ev_message "m1";
                ev_connection 0 (Some 2); ev_wake a_dbgsrv_send_] connected_bridge
    = Returns db1 /\
    msg_queue_ db1 = ["m1"] /\
    bridge_run [ev_message "m2"; ev_wake a_dbgsrv_send_] db1 = Returns db2 /\
    written_to (effects db2) = [(tcp_reading 2, "m1"); (tcp_reading 2, "m2")].
Proof.
  destruct (queued_message_reaches_next_client connected_bridge (-4095) "" "m1" "m2" 2
              connected_bridge_consuming)
    as (db1 & db2 & Hrun1 & Hq1 & _ & Hrun2 & _ & Hw2);
    [vm_compute; reflexivity|lia|].
  exists db1, db2. split; [exact Hrun1|]. split; [exact Hq1|]. split; [exact Hrun2|].
  rewrite Hw2. vm_compute. reflexivity.
Defined.
